(** * YTLoader: the Streamlit playlist downloader ([Versions/Streamlit/app.py])

    A shallow embedding of [YouTubePlaylistDownloader] and of the session
    bookkeeping of [main], with the properties of the playlist-URL validator,
    of the sequential batch download loop and of the selection state.

    Python values are modelled as follows: [str] as [string], list indices
    and counters as [nat] (the selection only ever holds positions taken from
    [range(len(video_data))]), a [set] of indices as [gset nat], a [list] as
    [list], a [dict] with fixed keys as a record, [None] as [option].
    Everything the program delegates to [yt_dlp], [os] and the network is a
    member of the class [Services], acting on an abstract [World]. *)

From Stdlib Require Import Ascii String.
From stdpp Require Import base option list gmap sets sorting pretty.

Open Scope string_scope.
Open Scope nat_scope.
Open Scope list_scope.

(** ** A backtracking matcher for the fragment of [re] the program uses *)

Module Re.

(** Members of a bracket expression such as [[a-zA-Z0-9_-]]. *)
Inductive set_item : Type :=
| Range (lo hi : ascii)
| Single (c : ascii).

(** Parsed patterns: literals, bracket sets, sequence, alternation [|],
    the greedy option [?] and the greedy repetition [+] of a bracket set. *)
Inductive regex : Type :=
| Eps
| Chr (c : ascii)
| Seq (r1 r2 : regex)
| Alt (r1 r2 : regex)
| Opt (r : regex)
| PlusSet (items : list set_item).

Definition in_item (c : ascii) (it : set_item) : bool :=
  match it with
  | Range lo hi =>
      (nat_of_ascii lo <=? nat_of_ascii c) && (nat_of_ascii c <=? nat_of_ascii hi)
  | Single d => Ascii.eqb c d
  end.

Definition in_set (items : list set_item) (c : ascii) : bool :=
  existsb (in_item c) items.

(** A literal word, character by character. *)
Fixpoint Str (w : list ascii) : regex :=
  match w with
  | [] => Eps
  | c :: w' => Seq (Chr c) (Str w')
  end.

Definition lit (w : string) : regex := Str (list_ascii_of_string w).

(** Greedy [+] over a set: take one member, then prefer to take more and
    only then hand the rest to the continuation. *)
Fixpoint plus_set (items : list set_item) (s : list ascii)
    (k : list ascii -> bool) : bool :=
  match s with
  | [] => false
  | c :: s' => in_set items c && (plus_set items s' k || k s')
  end.

(** [run r s k]: some way of matching [r] at the start of [s] leaves a rest
    accepted by [k]; alternatives are tried left to right, as [re] does. *)
Fixpoint run (r : regex) (s : list ascii) (k : list ascii -> bool) : bool :=
  match r with
  | Eps => k s
  | Chr c =>
      match s with
      | d :: s' => Ascii.eqb c d && k s'
      | [] => false
      end
  | Seq r1 r2 => run r1 s (fun s' => run r2 s' k)
  | Alt r1 r2 => run r1 s k || run r2 s k
  | Opt r1 => run r1 s k || k s
  | PlusSet items => plus_set items s k
  end.

(** [re.match(pattern, s) is not None]: the pattern matches at position 0;
    what follows the match is unconstrained. *)
Definition re_match (r : regex) (s : string) : bool :=
  run r (list_ascii_of_string s) (fun _ => true).

(** The words a pattern denotes. *)
Inductive matches : regex -> list ascii -> Prop :=
| m_eps : matches Eps []
| m_chr c : matches (Chr c) [c]
| m_seq r1 r2 u v : matches r1 u -> matches r2 v -> matches (Seq r1 r2) (u ++ v)
| m_alt_l r1 r2 u : matches r1 u -> matches (Alt r1 r2) u
| m_alt_r r1 r2 u : matches r2 u -> matches (Alt r1 r2) u
| m_opt_some r u : matches r u -> matches (Opt r) u
| m_opt_none r : matches (Opt r) []
| m_plus items c u :
    in_set items c = true -> Forall (fun d => in_set items d = true) u ->
    matches (PlusSet items) (c :: u).

(** Patterns without repetition denote finitely many words. *)
Fixpoint plus_free (r : regex) : bool :=
  match r with
  | Eps | Chr _ => true
  | Seq r1 r2 | Alt r1 r2 => plus_free r1 && plus_free r2
  | Opt r1 => plus_free r1
  | PlusSet _ => false
  end.

Fixpoint words (r : regex) : list (list ascii) :=
  match r with
  | Eps => [[]]
  | Chr c => [[c]]
  | Seq r1 r2 => u ← words r1; v ← words r2; [u ++ v]
  | Alt r1 r2 => words r1 ++ words r2
  | Opt r1 => words r1 ++ [[]]
  | PlusSet _ => []
  end.

End Re.

(** ** The downloader object and the URL validator *)

(** The two attributes of [YouTubePlaylistDownloader] set by [__init__]. *)
Record Downloader : Type := {
  download_path : string;
  ffmpeg_available : bool
}.

(** [r'^(https?://)?(www\.)?(youtube\.com|youtu\.?be)/playlist\?list=([a-zA-Z0-9_-]+)'];
    the leading [^] is the anchoring [re.match] applies anyway. *)
Definition playlist_pattern : Re.regex :=
  Re.Seq (Re.Opt (Re.Seq (Re.lit "http") (Re.Seq (Re.Opt (Re.Chr "s")) (Re.lit "://"))))
 (Re.Seq (Re.Opt (Re.lit "www."))
 (Re.Seq (Re.Alt (Re.lit "youtube.com")
                 (Re.Seq (Re.lit "youtu") (Re.Seq (Re.Opt (Re.Chr ".")) (Re.lit "be"))))
 (Re.Seq (Re.lit "/playlist?list=")
         (Re.PlusSet [Re.Range "a" "z"; Re.Range "A" "Z"; Re.Range "0" "9";
                      Re.Single "_"; Re.Single "-"])))).

Definition is_valid_playlist_url (self : Downloader) (url : string) : bool :=
  Re.re_match playlist_pattern url.

(** The parts of a playlist URL as documented: the optional scheme, the
    optional [www.], the two hosts, and the characters of the identifier.
    [accepted_hosts] adds the host the pattern lets through besides. *)
Definition schemes : list string := ["https://"; "http://"; ""].
Definition www_prefixes : list string := ["www."; ""].
Definition documented_hosts : list string := ["youtube.com"; "youtu.be"].
Definition accepted_hosts : list string := documented_hosts ++ ["youtube"].

Definition id_char (c : ascii) : bool :=
  Re.in_set [Re.Range "a" "z"; Re.Range "A" "Z"; Re.Range "0" "9";
             Re.Single "_"; Re.Single "-"] c.

(** The playlist-URL shape, spelled out: a scheme or none, [www.] or not,
    a host out of [hosts], the path and query [/playlist?list=], a non-empty
    identifier of letters, digits, [_] and [-], and anything after it. *)
Definition playlist_shape (hosts : list string) (url : string) : Prop :=
  exists scheme www host id rest : string,
    scheme ∈ schemes /\ www ∈ www_prefixes /\ host ∈ hosts /\
    id <> "" /\ Forall (fun c => id_char c = true) (list_ascii_of_string id) /\
    url = scheme +:+ www +:+ host +:+ "/playlist?list=" +:+ id +:+ rest.

(** ** Values exchanged with the download service *)

(** A call into a library either returns or raises; [Raised msg] carries
    [str(e)] of the exception. *)
Inductive Exc (A : Type) : Type :=
| Returned (a : A)
| Raised (msg : string).
Arguments Returned {A} a.
Arguments Raised {A} msg.

Record Postprocessor : Type := {
  key : string;
  preferredcodec : string;
  preferredquality : string
}.

(** The [ydl_opts] dictionary; a progress hook is the closure built by
    [create_hook] and is identified by the title it was created for. *)
Record YdlOpts : Type := {
  outtmpl : string;
  quiet : bool;
  no_warnings : bool;
  ignoreerrors : bool;
  retries : nat;
  fragment_retries : nat;
  file_access_retries : nat;
  socket_timeout : nat;
  extract_timeout : nat;
  format : string;
  overwrites : bool;
  extract_flat : bool;
  postprocessors : list Postprocessor;
  progress_hooks : list string
}.

Definition set_format (f : string) (o : YdlOpts) : YdlOpts :=
  {| outtmpl := outtmpl o; quiet := quiet o; no_warnings := no_warnings o;
     ignoreerrors := ignoreerrors o; retries := retries o;
     fragment_retries := fragment_retries o;
     file_access_retries := file_access_retries o;
     socket_timeout := socket_timeout o; extract_timeout := extract_timeout o;
     format := f; overwrites := overwrites o; extract_flat := extract_flat o;
     postprocessors := postprocessors o; progress_hooks := progress_hooks o |}.

Definition set_postprocessors (pp : list Postprocessor) (o : YdlOpts) : YdlOpts :=
  {| outtmpl := outtmpl o; quiet := quiet o; no_warnings := no_warnings o;
     ignoreerrors := ignoreerrors o; retries := retries o;
     fragment_retries := fragment_retries o;
     file_access_retries := file_access_retries o;
     socket_timeout := socket_timeout o; extract_timeout := extract_timeout o;
     format := format o; overwrites := overwrites o; extract_flat := extract_flat o;
     postprocessors := pp; progress_hooks := progress_hooks o |}.

Definition set_progress_hooks (hooks : list string) (o : YdlOpts) : YdlOpts :=
  {| outtmpl := outtmpl o; quiet := quiet o; no_warnings := no_warnings o;
     ignoreerrors := ignoreerrors o; retries := retries o;
     fragment_retries := fragment_retries o;
     file_access_retries := file_access_retries o;
     socket_timeout := socket_timeout o; extract_timeout := extract_timeout o;
     format := format o; overwrites := overwrites o; extract_flat := extract_flat o;
     postprocessors := postprocessors o; progress_hooks := hooks |}.

(** One entry of a flat playlist extraction and the playlist dictionary. *)
Record Video : Type := {
  v_id : string;
  v_title : option string;
  v_duration : option nat
}.

Record PlaylistInfo : Type := {
  pl_title : option string;
  pl_playlist_count : option nat;
  pl_uploader : option string;
  pl_entries : option (list (option Video))
}.

(** The collaborators outside the repository: [yt_dlp], [requests]/[PIL] and
    the file system, acting on an abstract [World]. [Info] is whatever
    [extract_info] returns (an info dictionary, or [None] under
    [ignoreerrors]); [fs_size w p] is the size of the file at [p], if any. *)
Class Services : Type := {
  World : Type;
  Info : Type;
  Image : Type;
  os_path_join : string -> string -> string;
  ydl_extract_info : YdlOpts -> string -> World -> World * Exc Info;
  ydl_prepare_filename : YdlOpts -> Info -> World -> Exc string;
  fs_size : World -> string -> option nat;
  ydl_playlist_info : string -> World -> World * option PlaylistInfo;
  fetch_thumbnail : string -> World -> World * option Image
}.

(** ** What [download_videos] writes *)

(** The lines appended to [console_content], one constructor per f-string,
    holding the interpolated values ([pos] is [i+1]). *)
Inductive ConsoleLine : Type :=
| CStartingProcess
| CDownloadingTo (total : nat) (path : string)
| CReliable
| CFormatAudio (mp3 : bool)
| CFormatVideo (quality : string)
| CRule
| CStarting (pos total : nat) (title : string)
| CConnecting (pos total : nat) (url : string)
| CSuccess (pos total : nat) (title : string) (file_size : nat)
| CFailed (pos total : nat) (title : string)
| CError (pos total : nat) (title : string)
| CDetails (error_msg : string)
| CAllCompleted (success total : nat)
| CPartial (success total : nat)
| CFailedCount (failed : nat)
| CAllFailed (total : nat)
| CFilesSaved (path : string).

(** The text put into a per-item [status_container]. *)
Inductive ItemStatus : Type :=
| SCompleted (title50 : string)
| SNotCreated (title50 : string)
| SError (title50 msg50 : string).

(** The calls on Streamlit widgets, in the order they are made. *)
Inductive UiEvent : Type :=
| UiError (msg : string)
| UiSubheader (text : string)
| UiBalloons
| UiOverall (pos total : nat) (title60 : string)
| UiOverallClear
| UiProgress (num den : nat)
| UiProgressInt (n : nat)
| UiStatus (s : ItemStatus)
| UiConsole (lines : list ConsoleLine)
| UiSleep (seconds : nat).

(** [s[:n]]. A [string] is a sequence of bytes, so the cut is made after
    [n] bytes where Python cuts after [n] code points; the two agree on
    ASCII text. Only the texts shown in the widgets depend on it. *)
Definition str_take (n : nat) (s : string) : string := substring 0 n s.

(** [sorted(selected_indices)] and [enumerate]; [len(selected_indices)] is
    [size]. *)
Definition sorted (s : gset nat) : list nat := merge_sort (≤) (elements s).

Fixpoint enumerate_from {A : Type} (start : nat) (l : list A) : list (nat * A) :=
  match l with
  | [] => []
  | x :: l' => (start, x) :: enumerate_from (S start) l'
  end.

Definition enumerate {A : Type} (l : list A) : list (nat * A) := enumerate_from 0 l.

(** One element of [st.session_state.video_data] whose id and title are
    strings. The loop of [main] can also store a title or an id that is
    [None] ([VideoRow] below); [download_videos] slices the title
    (line 216), which a [None] title does not allow, so a session holding
    such an element is outside what is stated about [download_videos]. *)
Record VideoData `{Services} : Type := {
  vd_index : nat;
  vd_id : string;
  vd_title : string;
  vd_duration : string;
  vd_url : string;
  vd_thumbnail : option Image
}.

(** [st.session_state] after initialisation; [video_checkbox] holds the
    widget values stored under the keys [video_checkbox_<i>]. *)
Record SessionState `{Services} : Type := {
  selected_videos : gset nat;
  select_all_clicked : bool;
  clear_all_clicked : bool;
  video_data : list VideoData;
  video_urls : list string;
  video_checkbox : gmap nat bool
}.

(** The mutable state of one [download_videos] call. *)
Record Run `{Services} : Type := {
  world : World;
  console_content : list ConsoleLine;
  ui : list UiEvent;
  success_count : nat
}.

Section Download.
Context `{Services}.

Definition console_append (l : ConsoleLine) (r : Run) : Run :=
  {| world := world r; console_content := console_content r ++ [l];
     ui := ui r; success_count := success_count r |}.

Definition emit (e : UiEvent) (r : Run) : Run :=
  {| world := world r; console_content := console_content r;
     ui := ui r ++ [e]; success_count := success_count r |}.

Definition update_console (r : Run) : Run := emit (UiConsole (console_content r)) r.

Definition set_world (w : World) (r : Run) : Run :=
  {| world := w; console_content := console_content r;
     ui := ui r; success_count := success_count r |}.

Definition incr_success (r : Run) : Run :=
  {| world := world r; console_content := console_content r;
     ui := ui r; success_count := success_count r + 1 |}.

(** [os.path.exists] and [os.path.getsize] read the same file system: the
    loop is the only thread of control, so nothing changes between the two
    calls of one item. *)
Definition path_exists (w : World) (p : string) : bool :=
  match fs_size w p with Some _ => true | None => false end.

(** [os.path.getsize] raises [OSError] when the path is missing. *)
Definition getsize (w : World) (p : string) : Exc nat :=
  match fs_size w p with
  | Some n => Returned n
  | None => Raised "[Errno 2] No such file or directory"
  end.

Definition quality_map : gmap string string :=
  <["best" := "best[height<=1080]/best[height<=720]/best"]>
 (<["1080p" := "best[height<=1080]"]>
 (<["720p" := "best[height<=720]"]>
 (<["480p" := "best[height<=480]"]>
 (<["360p" := "best[height<=360]"]> ∅)))).

(** Lines 132-173: the options dictionary and its [format]. *)
Definition build_ydl_opts (self : Downloader) (audio_only : bool)
    (quality : string) : YdlOpts :=
  let ydl_opts :=
    {| outtmpl := os_path_join (download_path self) "%(title)s.%(ext)s";
       quiet := false; no_warnings := false; ignoreerrors := true;
       retries := 10; fragment_retries := 10; file_access_retries := 3;
       socket_timeout := 30; extract_timeout := 60;
       format := if negb audio_only
                 then "best[height<=720]/best[height<=480]/best"
                 else "bestaudio/best";
       overwrites := true; extract_flat := false;
       postprocessors := []; progress_hooks := [] |} in
  if audio_only then
    if ffmpeg_available self then
      set_postprocessors
        [{| key := "FFmpegExtractAudio"; preferredcodec := "mp3";
            preferredquality := "192" |}]
        (set_format "bestaudio/best" ydl_opts)
    else set_format "bestaudio[ext=m4a]/bestaudio/best" ydl_opts
  else
    set_format (default "best[height<=720]/best" (quality_map !! quality)) ydl_opts.

(** The [except Exception as e] handler of the loop body (lines 253-258). *)
Definition on_exception (pos total_count : nat) (video_title error_msg : string)
    (r : Run) : Run :=
  emit (UiStatus (SError (str_take 50 video_title) (str_take 50 error_msg)))
    (console_append (CDetails error_msg)
      (console_append (CError pos total_count video_title) r)).

(** The [try] block (lines 224-251), with its handler. *)
Definition try_download (ydl_opts : YdlOpts) (total_count i : nat)
    (video_url video_title : string) (r : Run) : Run :=
  let current_ydl_opts := set_progress_hooks [video_title] ydl_opts in
  let r := update_console (console_append (CConnecting (i + 1) total_count video_url) r) in
  let '(w, res) := ydl_extract_info current_ydl_opts video_url (world r) in
  let r := set_world w r in
  match res with
  | Raised error_msg => on_exception (i + 1) total_count video_title error_msg r
  | Returned info =>
      match ydl_prepare_filename current_ydl_opts info (world r) with
      | Raised error_msg => on_exception (i + 1) total_count video_title error_msg r
      | Returned filename =>
          if path_exists (world r) filename then
            let r := incr_success r in
            match getsize (world r) filename with
            | Raised error_msg =>
                on_exception (i + 1) total_count video_title error_msg r
            | Returned file_size =>
                emit (UiStatus (SCompleted (str_take 50 video_title)))
                  (console_append
                     (CSuccess (i + 1) total_count video_title file_size) r)
            end
          else
            emit (UiStatus (SNotCreated (str_take 50 video_title)))
              (console_append (CFailed (i + 1) total_count video_title) r)
      end
  end.

(** The body of [for i, idx in enumerate(sorted(selected_indices))]
    (lines 211-264). The two subscripts sit outside the [try]: a missing
    element raises [IndexError] out of [download_videos]. *)
Definition loop_body (session : SessionState) (video_urls : list string)
    (ydl_opts : YdlOpts) (total_count i idx : nat) (r : Run) : Exc Run :=
  if decide (idx < length video_urls) then
    match video_urls !! idx with
    | None => Raised "list index out of range"
    | Some video_url =>
        match video_data session !! idx with
        | None => Raised "list index out of range"
        | Some vd =>
            let video_title := vd_title vd in
            let r := emit (UiOverall (i + 1) total_count (str_take 60 video_title)) r in
            let r := emit (UiProgress i total_count) r in
            let r := update_console
                       (console_append (CStarting (i + 1) total_count video_title) r) in
            let r := try_download ydl_opts total_count i video_url video_title r in
            let r := emit (UiProgress (i + 1) total_count) r in
            Returned (emit (UiSleep 1) r)
        end
    end
  else Returned r.

Fixpoint download_loop (session : SessionState) (video_urls : list string)
    (ydl_opts : YdlOpts) (total_count : nat) (items : list (nat * nat))
    (r : Run) : Exc Run :=
  match items with
  | [] => Returned r
  | (i, idx) :: rest =>
      match loop_body session video_urls ydl_opts total_count i idx r with
      | Raised msg => Raised msg
      | Returned r' => download_loop session video_urls ydl_opts total_count rest r'
      end
  end.

(** Lines 266-281. *)
Definition final_summary (self : Downloader) (total_count : nat) (r : Run) : Run :=
  let r := emit UiOverallClear (emit (UiProgressInt 100) r) in
  let r := console_append CRule r in
  let r :=
    if success_count r =? total_count then
      emit UiBalloons
        (console_append (CAllCompleted (success_count r) total_count) r)
    else if 0 <? success_count r then
      console_append (CFailedCount (total_count - success_count r))
        (console_append (CPartial (success_count r) total_count) r)
    else console_append (CAllFailed total_count) r in
  update_console (console_append (CFilesSaved (download_path self)) r).

Definition start_run (w : World) : Run :=
  {| world := w; console_content := []; ui := []; success_count := 0 |}.

(** Lines 182-208. *)
Definition console_header (self : Downloader) (audio_only : bool) (quality : string)
    (total_count : nat) (r : Run) : Run :=
  let r := emit (UiSubheader "Download Console") r in
  let r := emit (UiProgressInt 0) r in
  let r := console_append CStartingProcess r in
  let r := console_append (CDownloadingTo total_count (download_path self)) r in
  let r := console_append CReliable r in
  let r := if audio_only
           then console_append (CFormatAudio (ffmpeg_available self)) r
           else console_append (CFormatVideo quality) r in
  update_console (console_append CRule r).

(** [download_videos]: the returned boolean (or the exception that escaped)
    together with the state the call leaves behind. *)
Definition download_videos (self : Downloader) (session : SessionState)
    (video_urls : list string) (selected_indices : gset nat)
    (audio_only : bool) (quality : string) (w : World) : Exc (bool * Run) :=
  let r := start_run w in
  match video_urls with
  | [] => Returned (false, emit (UiError "No videos selected for download") r)
  | _ :: _ =>
      let ydl_opts := build_ydl_opts self audio_only quality in
      let total_count := size selected_indices in
      if total_count =? 0 then
        Returned (false, emit (UiError "No videos selected") r)
      else
        let r := console_header self audio_only quality total_count r in
        match download_loop session video_urls ydl_opts total_count
                (enumerate (sorted selected_indices)) r with
        | Raised msg => Raised msg
        | Returned r =>
            let r := final_summary self total_count r in
            Returned (0 <? success_count r, r)
        end
  end.

End Download.

(** ** The session bookkeeping of [main] *)

(** [st.session_state] as a script run finds it: a key may be absent. *)
Record RawSession `{Services} : Type := {
  raw_selected_videos : option (gset nat);
  raw_select_all_clicked : option bool;
  raw_clear_all_clicked : option bool;
  raw_video_data : option (list VideoData);
  raw_video_urls : option (list string);
  raw_video_checkbox : gmap nat bool
}.

(** The widget values of one script run. *)
Record Inputs : Type := {
  playlist_url : string;
  download_type : string;
  quality_choice : string;
  select_all : bool;
  clear_all : bool;
  submitted : bool;
  start_download : bool
}.

(** How a script run of [main] ends: the session it leaves, the world once
    the playlist and its thumbnails were fetched, whether [st.rerun()] was
    called, and the result of [download_videos] when it was called. *)
Record MainResult `{Services} : Type := {
  mr_session : SessionState;
  mr_world : World;
  mr_rerun : bool;
  mr_download : option (Exc (bool * Run))
}.

Section Main.
Context `{Services}.

(** Lines 403-413. *)
Definition init_session_state (raw : RawSession) : SessionState :=
  {| selected_videos := default ∅ (raw_selected_videos raw);
     select_all_clicked := default false (raw_select_all_clicked raw);
     clear_all_clicked := default false (raw_clear_all_clicked raw);
     video_data := default [] (raw_video_data raw);
     video_urls := default [] (raw_video_urls raw);
     video_checkbox := raw_video_checkbox raw |}.

(** [f"{n:02d}"] *)
Definition pad2 (n : nat) : string :=
  if n <? 10 then "0" +:+ pretty n else pretty n.

(** Lines 456-465 for a duration that is missing or a natural number of
    seconds; [duration_text] below covers negative numbers, floats and
    strings as well and agrees with this one on its domain. *)
Definition duration_str (duration : option nat) : string :=
  match duration with
  | Some (S _ as d) =>
      let minutes := d / 60 in
      let seconds := d mod 60 in
      let hours := minutes / 60 in
      let minutes := minutes mod 60 in
      if 0 <? hours
      then pad2 hours +:+ ":" +:+ pad2 minutes +:+ ":" +:+ pad2 seconds
      else pad2 minutes +:+ ":" +:+ pad2 seconds
  | _ => "Unknown"
  end.

(** The loop of lines 449-479 over [enumerate(videos)], for entries whose
    title is a string or missing and whose duration is a natural number or
    missing ([collect_videos] below takes every entry); an entry that is
    [None] or empty is skipped and appends to neither list. *)
Fixpoint prepare_videos (videos : list (nat * option Video)) (w : World)
    (video_data : list VideoData) (video_urls : list string)
    : World * list VideoData * list string :=
  match videos with
  | [] => (w, video_data, video_urls)
  | (i, None) :: rest => prepare_videos rest w video_data video_urls
  | (i, Some video) :: rest =>
      let video_id := v_id video in
      let video_url := "https://www.youtube.com/watch?v=" +:+ video_id in
      let video_urls := video_urls ++ [video_url] in
      let '(w, thumbnail) := fetch_thumbnail video_id w in
      let video_data :=
        video_data ++
        [{| vd_index := i; vd_id := video_id;
            vd_title := default "Unknown Title" (v_title video);
            vd_duration := duration_str (v_duration video);
            vd_url := video_url; vd_thumbnail := thumbnail |}] in
      prepare_videos rest w video_data video_urls
  end.

Definition store_videos (video_data : list VideoData) (video_urls : list string)
    (ss : SessionState) : SessionState :=
  {| selected_videos := selected_videos ss;
     select_all_clicked := select_all_clicked ss;
     clear_all_clicked := clear_all_clicked ss;
     video_data := video_data; video_urls := video_urls;
     video_checkbox := video_checkbox ss |}.

Definition set_selection (sel : gset nat) (sa ca : bool) (ss : SessionState)
    : SessionState :=
  {| selected_videos := sel; select_all_clicked := sa; clear_all_clicked := ca;
     video_data := video_data ss; video_urls := video_urls ss;
     video_checkbox := video_checkbox ss |}.

(** [set(range(n))] *)
Definition range_set (n : nat) : gset nat := list_to_set (seq 0 n).

(** Lines 563-567: the checked boxes among [range(len(video_data))]. *)
Definition new_selections (ss : SessionState) : gset nat :=
  list_to_set
    (filter (fun i => video_checkbox ss !! i = Some true)
            (seq 0 (length (video_data ss)))).

Definition stop (ss : SessionState) (w : World) (rerun : bool) : MainResult :=
  {| mr_session := ss; mr_world := w; mr_rerun := rerun; mr_download := None |}.

(** The main content area of one script run (lines 403-591), given the
    downloader. What a script run does before it, building the downloader
    (line 320) and the sidebar with its folder buttons (lines 323-401), is
    not part of this definition. *)
Definition main (downloader : Downloader) (inp : Inputs) (raw : RawSession)
    (w : World) : MainResult :=
  let quality := if String.eqb (download_type inp) "Video"
                 then quality_choice inp else "best" in
  let audio_only := String.eqb (download_type inp) "Audio Only" in
  let ss := init_session_state raw in
  if String.eqb (playlist_url inp) "" then stop ss w false
  else if negb (is_valid_playlist_url downloader (playlist_url inp)) then stop ss w false
  else
    let '(w, playlist_info) := ydl_playlist_info (playlist_url inp) w in
    match playlist_info with
    | None => stop ss w false
    | Some info =>
        match default [] (pl_entries info) with
        | [] => stop ss w false
        | videos =>
            let '(w, new_video_data, new_video_urls) :=
              prepare_videos (enumerate videos) w [] [] in
            let ss := store_videos new_video_data new_video_urls ss in
            if select_all inp then
              stop (set_selection (range_set (length new_video_data)) true false ss) w true
            else if clear_all inp then
              stop (set_selection ∅ false true ss) w true
            else
              let ss := set_selection (selected_videos ss) false false ss in
              if submitted inp then
                stop (set_selection (new_selections ss) false false ss) w true
              else if decide (selected_videos ss = ∅) then stop ss w false
              else if start_download inp then
                {| mr_session := ss; mr_world := w; mr_rerun := false;
                   mr_download :=
                     Some (download_videos downloader ss (video_urls ss)
                             (selected_videos ss) audio_only quality w) |}
              else stop ss w false
        end
    end.

End Main.

(** ** Reading a format selector *)

(** The pieces of [s] between occurrences of [sep], as [s.split(sep)]. *)
Fixpoint split_on (sep : ascii) (s : string) : list string :=
  match s with
  | EmptyString => [EmptyString]
  | String c s' =>
      if Ascii.eqb c sep then EmptyString :: split_on sep s'
      else match split_on sep s' with
           | [] => [String c EmptyString]
           | piece :: pieces => String c piece :: pieces
           end
  end.

(** [sep.join(pieces)] for a one-character separator. *)
Fixpoint join_on (sep : ascii) (pieces : list string) : string :=
  match pieces with
  | [] => EmptyString
  | [piece] => piece
  | piece :: rest => piece +:+ String sep (join_on sep rest)
  end.

(** A yt-dlp format selector lists its alternatives between slashes, in
    order of preference; the first one that matches a format is used. *)
Definition format_alternatives (fmt : string) : list string := split_on "/" fmt.

(** The selector ends in the unfiltered alternative [best], so that some
    format is chosen even if no other alternative matches. *)
Definition falls_back_to_best (fmt : string) : bool :=
  bool_decide (last (format_alternatives fmt) = Some "best").

(** The quality tiers offered by the selectbox of [main], and the height
    each one names as its ceiling ([best] asks for 1080 first). *)
Definition video_tiers : list string := ["best"; "1080p"; "720p"; "480p"; "360p"].

Definition tier_ceiling (tier : string) : string :=
  if String.eqb tier "best" then "1080"
  else substring 0 (String.length tier - 1) tier.

(** ** Reading a run back from its console *)

(** The three per-item records of the loop body. *)
Inductive OutcomeKind : Type :=
| OSuccess
| OFileNotCreated
| OError.

(** The per-item outcome a console line records, if it is one: its
    1-based position, the title and the kind. *)
Definition outcome_of (l : ConsoleLine) : option (nat * string * OutcomeKind) :=
  match l with
  | CSuccess pos _ title _ => Some (pos, title, OSuccess)
  | CFailed pos _ title => Some (pos, title, OFileNotCreated)
  | CError pos _ title => Some (pos, title, OError)
  | _ => None
  end.

Definition outcomes (console : list ConsoleLine) : list (nat * string * OutcomeKind) :=
  omap outcome_of console.

(** The download attempts a console shows: position and URL of each
    [Connecting to] line, written just before [extract_info] is called. *)
Definition attempt_of (l : ConsoleLine) : option (nat * string) :=
  match l with
  | CConnecting pos _ url => Some (pos, url)
  | _ => None
  end.

Definition attempts (console : list ConsoleLine) : list (nat * string) :=
  omap attempt_of console.

Definition is_success (o : nat * string * OutcomeKind) : bool :=
  match o.2 with OSuccess => true | _ => false end.

Definition succeeded (console : list ConsoleLine) : nat :=
  length (filter (fun o => is_success o = true) (outcomes console)).

Section Expected.
Context `{Services}.

Definition title_of (session : SessionState) (idx : nat) : string :=
  default "" (vd_title <$> video_data session !! idx).

Definition url_of (video_urls : list string) (idx : nat) : string :=
  default "" (video_urls !! idx).

(** The enumerated indices that pass the guard [idx < len(video_urls)]. *)
Definition in_range (video_urls : list string) (items : list (nat * nat))
    : list (nat * nat) :=
  filter (fun it => it.2 < length video_urls) items.

(** Position and title of the outcome each of those indices must get, and
    position and URL of the attempt. *)
Definition expected_outcomes (session : SessionState) (video_urls : list string)
    (items : list (nat * nat)) : list (nat * string) :=
  (fun it => (it.1 + 1, title_of session it.2)) <$> in_range video_urls items.

Definition expected_attempts (video_urls : list string)
    (items : list (nat * nat)) : list (nat * string) :=
  (fun it => (it.1 + 1, url_of video_urls it.2)) <$> in_range video_urls items.

(** The total a progress report or a console line mentions is [total]. *)
Definition reports_total (total : nat) (e : UiEvent) : Prop :=
  match e with
  | UiOverall _ t _ => t = total
  | UiProgress _ den => den = total
  | _ => True
  end.

Definition line_total (total : nat) (l : ConsoleLine) : Prop :=
  match l with
  | CDownloadingTo t _ | CStarting _ t _ | CConnecting _ t _
  | CSuccess _ t _ _ | CFailed _ t _ | CError _ t _
  | CAllCompleted _ t | CPartial _ t | CAllFailed t => t = total
  | _ => True
  end.

(** [r'] continues [r]: the console and the widget calls only grew, by
    lines recording [new_outcomes] and [new_attempts], and the success
    counter grew by the number of success records among them. *)
Definition extends (total : nat) (r r' : Run)
    (new_outcomes new_attempts : list (nat * string)) : Prop :=
  exists lines evs,
    console_content r' = console_content r ++ lines /\
    (fst <$> outcomes lines) = new_outcomes /\
    attempts lines = new_attempts /\
    Forall (line_total total) lines /\
    success_count r' = success_count r + succeeded lines /\
    ui r' = ui r ++ evs /\
    Forall (reports_total total) evs.

End Expected.

(** ** A concrete world to run the program in *)

Module Fixture.

Definition watch (video_id : string) : string :=
  "https://www.youtube.com/watch?v=" +:+ video_id.

Fixpoint file_size (files : list (string * nat)) (p : string) : option nat :=
  match files with
  | [] => None
  | (q, n) :: rest => if String.eqb p q then Some n else file_size rest p
  end.

Definition entry (video_id : string) : option Video :=
  Some {| v_id := video_id; v_title := Some ("Title " +:+ video_id);
          v_duration := Some 125 |}.

Definition playlist (entries : list (option Video)) : option PlaylistInfo :=
  Some {| pl_title := Some "Mix"; pl_playlist_count := Some (length entries);
          pl_uploader := Some "Channel"; pl_entries := Some entries |}.

(** The world is the list of files on disk. A video whose id is [gone]
    makes [extract_info] raise, [lost] makes it return [None] (as under
    [ignoreerrors]), [ghost] makes it return without writing a file, and
    any other video is written with 2048 bytes. *)
Definition services : Services :=
  {| World := list (string * nat);
     Info := option string;
     Image := unit;
     os_path_join := fun a b => a +:+ "/" +:+ b;
     ydl_extract_info := fun opts url w =>
       if String.eqb url (watch "gone") then (w, Raised "Video unavailable")
       else if String.eqb url (watch "lost") then (w, Returned None)
       else if String.eqb url (watch "ghost") then (w, Returned (Some url))
       else ((url +:+ ".mp4", 2048) :: w, Returned (Some url));
     ydl_prepare_filename := fun opts info w =>
       match info with
       | None => Raised "'NoneType' object is not iterable"
       | Some url => Returned (url +:+ ".mp4")
       end;
     fs_size := file_size;
     ydl_playlist_info := fun url w =>
       if String.eqb url "https://www.youtube.com/playlist?list=PL3"
       then (w, playlist [entry "a"; entry "b"; entry "c"])
       else if String.eqb url "https://www.youtube.com/playlist?list=PL1"
       then (w, playlist [entry "z"])
       else if String.eqb url "https://www.youtube.com/playlist?list=PL0"
       then (w, playlist [None])
       else (w, None);
     fetch_thumbnail := fun video_id w => (w, None) |}.

Definition downloader : Downloader :=
  {| download_path := "downloads"; ffmpeg_available := false |}.

Definition video (i : nat) (video_id : string) : @VideoData services :=
  {| vd_index := i; vd_id := video_id; vd_title := "Title " +:+ video_id;
     vd_duration := "02:05"; vd_url := watch video_id; vd_thumbnail := None |}.

(** A session holding the given videos and selection. *)
Definition session (ids : list string) (sel : gset nat) : @SessionState services :=
  {| selected_videos := sel; select_all_clicked := false;
     clear_all_clicked := false;
     video_data := (fun it => video it.1 it.2) <$> enumerate ids;
     video_urls := watch <$> ids;
     video_checkbox := ∅ |}.

Definition raw (ss : @SessionState services) : @RawSession services :=
  {| raw_selected_videos := Some (selected_videos ss);
     raw_select_all_clicked := Some (select_all_clicked ss);
     raw_clear_all_clicked := Some (clear_all_clicked ss);
     raw_video_data := Some (video_data ss);
     raw_video_urls := Some (video_urls ss);
     raw_video_checkbox := video_checkbox ss |}.

Definition inputs (url : string) : Inputs :=
  {| playlist_url := url; download_type := "Video"; quality_choice := "1080p";
     select_all := false; clear_all := false; submitted := false;
     start_download := false |}.

(** [download_videos] on a session, as [main] calls it. *)
Definition run (ss : @SessionState services) : Exc (bool * @Run services) :=
  @download_videos services downloader ss (video_urls ss) (selected_videos ss)
    false "1080p" [].

End Fixture.

(** ** The progress hook *)

(** The text [progress_hook] puts into the item's [status_container]. *)
Inductive HookText : Type :=
| HDownloading (title50 percent speed eta : string)
| HFinished (title50 file_ext : string)
| HFailed (title50 : string).

(** ['.' in filename] *)
Fixpoint has_char (c : ascii) (s : string) : bool :=
  match s with
  | EmptyString => false
  | String d s' => Ascii.eqb d c || has_char c s'
  end.

(** [filename.split('.')[-1] if '.' in filename else 'file'] *)
Definition file_ext (filename : string) : string :=
  if has_char "." filename then default "" (last (split_on "." filename)) else "file".

Section Hook.
(** [str.strip] is the library's. *)
Variable strip : string -> string.

(** Lines 105-122. The progress dictionary [d] is yt-dlp's; [d['status']]
    raises [KeyError] when the key is missing, the other keys are read with
    [get]. The result is the text written, if any. *)
Definition progress_hook (d : gmap string string) (video_title : string)
    : Exc (option HookText) :=
  match d !! "status" with
  | None => Raised "'status'"
  | Some status =>
      if String.eqb status "downloading" then
        let percent := strip (default "" (d !! "_percent_str")) in
        let speed := strip (default "" (d !! "_speed_str")) in
        let eta := strip (default "" (d !! "_eta_str")) in
        if negb (String.eqb percent "") && negb (String.eqb speed "") then
          Returned (Some (HDownloading (str_take 50 video_title) percent speed eta))
        else Returned None
      else if String.eqb status "finished" then
        let filename := default "" (d !! "filename") in
        Returned (Some (HFinished (str_take 50 video_title) (file_ext filename)))
      else if String.eqb status "error" then
        Returned (Some (HFailed (str_take 50 video_title)))
      else Returned None
  end.

End Hook.

(** ** Reading the widget calls of a run *)

(** The value handed to [progress_bar.progress] is a fraction between 0 and
    1, or an integer percentage up to 100; Streamlit rejects anything else. *)
Definition progress_in_range (e : UiEvent) : Prop :=
  match e with
  | UiProgress num den => num <= den /\ 0 < den
  | UiProgressInt n => n <= 100
  | _ => True
  end.

(** The seconds spent in [time.sleep]. *)
Definition sleep_seconds (e : UiEvent) : nat :=
  match e with UiSleep n => n | _ => 0 end.

Definition slept (evs : list UiEvent) : nat := sum_list_with sleep_seconds evs.

(** The console contents rendered by [update_console], in order. *)
Definition snapshot_of (e : UiEvent) : option (list ConsoleLine) :=
  match e with UiConsole lines => Some lines | _ => None end.

Definition snapshots (evs : list UiEvent) : list (list ConsoleLine) :=
  omap snapshot_of evs.

Section Sessions.
Context `{Services}.

(** The world after the download call of one enumerated item. *)
Definition world_after_item (session : SessionState) (video_urls : list string)
    (ydl_opts : YdlOpts) (w : World) (it : nat * nat) : World :=
  (ydl_extract_info (set_progress_hooks [title_of session it.2] ydl_opts)
     (url_of video_urls it.2) w).1.

(** Streamlit keeps [st.session_state] from one script run to the next;
    the check boxes are set by the user in between. *)
Definition session_raw (ss : SessionState) (checkboxes : gmap nat bool) : RawSession :=
  {| raw_selected_videos := Some (selected_videos ss);
     raw_select_all_clicked := Some (select_all_clicked ss);
     raw_clear_all_clicked := Some (clear_all_clicked ss);
     raw_video_data := Some (video_data ss);
     raw_video_urls := Some (video_urls ss);
     raw_video_checkbox := checkboxes |}.

Definition fresh_session : RawSession :=
  {| raw_selected_videos := None; raw_select_all_clicked := None;
     raw_clear_all_clicked := None; raw_video_data := None;
     raw_video_urls := None; raw_video_checkbox := ∅ |}.

(** The sessions a browser tab can be in: the one the first script run
    leaves, and the one any further run leaves, whatever the widgets hold
    and whatever the services answer. *)
Inductive reachable (downloader : Downloader) : SessionState -> Prop :=
| reach_first inp w :
    reachable downloader (mr_session (main downloader inp fresh_session w))
| reach_next ss inp checkboxes w :
    reachable downloader ss ->
    reachable downloader
      (mr_session (main downloader inp (session_raw ss checkboxes) w)).

(** The script run gets as far as storing a playlist: the URL is there and
    valid, and the service answers, in world [w1], with the non-empty entry
    list [videos]. *)
Definition resolves (downloader : Downloader) (inp : Inputs) (w w1 : World)
    (videos : list (option Video)) : Prop :=
  playlist_url inp <> "" /\
  is_valid_playlist_url downloader (playlist_url inp) = true /\
  (exists info : PlaylistInfo,
     ydl_playlist_info (playlist_url inp) w = (w1, Some info) /\
     pl_entries info = Some videos /\ videos <> []).

(** The playlist entries that are kept: [None] entries are passed over. *)
Definition kept_entries (videos : list (option Video)) : list Video := omap id videos.

Definition watch_url (video : Video) : string :=
  "https://www.youtube.com/watch?v=" +:+ v_id video.

End Sessions.

(** ** The playlist entries as yt-dlp delivers them *)

(** The value under [duration] in a playlist entry: missing or [None], an
    [int], a [float] (the code only ever asks whether it is zero), or a
    string. *)
Inductive PyDuration : Type :=
| DNone
| DInt (seconds : Z)
| DFloat (nonzero : bool)
| DStr (text : string).

(** [f"{n:02d}"] for an [int]: at least two characters, the sign included. *)
Definition format_02d (n : Z) : string :=
  if (n <? 0)%Z then pretty n
  else if (n <? 10)%Z then "0" +:+ pretty n else pretty n.

(** Lines 456-465 for every value [video.get('duration')] can give.
    [divmod] rounds towards minus infinity, as [Z.div] and [Z.modulo] do
    for a positive divisor; it accepts a [float], which the format code [d]
    then refuses, and it refuses a string. *)
Definition duration_text (duration : PyDuration) : Exc string :=
  match duration with
  | DNone => Returned "Unknown"
  | DInt d =>
      if (d =? 0)%Z then Returned "Unknown"
      else
        let minutes := (d / 60)%Z in
        let seconds := (d mod 60)%Z in
        let hours := (minutes / 60)%Z in
        let minutes := (minutes mod 60)%Z in
        if (0 <? hours)%Z
        then Returned (format_02d hours +:+ ":" +:+ format_02d minutes +:+ ":" +:+
                       format_02d seconds)
        else Returned (format_02d minutes +:+ ":" +:+ format_02d seconds)
  | DFloat nonzero =>
      if nonzero
      then Raised "Unknown format code 'd' for object of type 'float'"
      else Returned "Unknown"
  | DStr text =>
      if String.eqb text "" || String.eqb text "Unknown" then Returned "Unknown"
      else Raised "unsupported operand type(s) for divmod(): 'str' and 'int'"
  end.

(** A non-empty playlist entry: [id] is a string or missing/[None]; [title]
    is missing ([None]), present with the value [None] ([Some None]) or
    present with a string. *)
Record Entry : Type := {
  en_id : option string;
  en_title : option (option string);
  en_duration : PyDuration
}.

(** [f"{x}"] of a string or [None]. *)
Definition py_str (x : option string) : string := default "None" x.

(** [video.get('title', 'Unknown Title')]: the default is used only when
    the key is missing; a [None] that is present is kept. *)
Definition stored_title (video : Entry) : option string :=
  match en_title video with
  | None => Some "Unknown Title"
  | Some title => title
  end.

Definition entry_url (video : Entry) : string :=
  "https://www.youtube.com/watch?v=" +:+ py_str (en_id video).

(** The entries the loop does not skip: [if video] is false for [None] and
    for an empty dictionary. *)
Definition present_entries (videos : list (option Entry)) : list Entry :=
  omap id videos.

(** One element of [video_data] as the loop builds it. *)
Record VideoRow `{Services} : Type := {
  row_index : nat;
  row_id : option string;
  row_title : option string;
  row_duration : string;
  row_url : string;
  row_thumbnail : option Image
}.

Section Entries.
Context `{Services}.

(** The loop of lines 449-479 on such entries. An exception raised while
    the duration is formatted leaves the loop, and [main] with it, before
    the thumbnail is fetched and before anything is appended to
    [video_data]; the lists are local, so nothing of them is kept. The
    thumbnail is asked for under the text the id is formatted to. *)
Fixpoint collect_videos (videos : list (nat * option Entry)) (w : World)
    (video_data : list VideoRow) (video_urls : list string)
    : World * Exc (list VideoRow * list string) :=
  match videos with
  | [] => (w, Returned (video_data, video_urls))
  | (i, None) :: rest => collect_videos rest w video_data video_urls
  | (i, Some video) :: rest =>
      let video_id := en_id video in
      let video_url := "https://www.youtube.com/watch?v=" +:+ py_str video_id in
      let video_urls := video_urls ++ [video_url] in
      match duration_text (en_duration video) with
      | Raised msg => (w, Raised msg)
      | Returned duration_str =>
          let '(w, thumbnail) := fetch_thumbnail (py_str video_id) w in
          let video_data :=
            video_data ++
            [{| row_index := i; row_id := video_id;
                row_title := stored_title video;
                row_duration := duration_str;
                row_url := video_url; row_thumbnail := thumbnail |}] in
          collect_videos rest w video_data video_urls
      end
  end.

(** The entries [prepare_videos] is written for, among all entries: the id
    and the title are strings when present, the duration is a natural
    number or missing. *)
Definition plain_entry (video : Video) : Entry :=
  {| en_id := Some (v_id video);
     en_title := Some <$> v_title video;
     en_duration := match v_duration video with
                    | None => DNone
                    | Some n => DInt (Z.of_nat n)
                    end |}.

Definition plain_row (vd : VideoData) : VideoRow :=
  {| row_index := vd_index vd; row_id := Some (vd_id vd);
     row_title := Some (vd_title vd); row_duration := vd_duration vd;
     row_url := vd_url vd; row_thumbnail := vd_thumbnail vd |}.

End Entries.

(** * Properties *)

(** ** The playlist-URL validator *)

Lemma plus_set_sound items s k :
  Re.plus_set items s k = true ->
  exists c u v, s = c :: u ++ v /\ Re.in_set items c = true /\
    Forall (fun d => Re.in_set items d = true) u /\ k v = true.
Proof.
  induction s as [|c s IH]; simpl; [discriminate|].
  intros Hrun. apply andb_true_iff in Hrun as [Hc Hrest].
  apply orb_true_iff in Hrest as [Hmore|Hk].
  - destruct (IH Hmore) as (d & u & v & -> & Hd & Hu & Hv).
    exists c, (d :: u), v. repeat split; auto.
  - exists c, [], s. repeat split; auto.
Qed.

Lemma plus_set_complete items c u v k :
  Re.in_set items c = true -> Forall (fun d => Re.in_set items d = true) u ->
  k v = true -> Re.plus_set items (c :: u ++ v) k = true.
Proof.
  intros Hc Hu Hk. revert c Hc.
  induction Hu as [|d u Hd Hu IH]; intros c Hc; simpl; rewrite Hc; simpl.
  - destruct v; simpl; rewrite Hk; [reflexivity | apply orb_true_r].
  - specialize (IH d Hd). simpl in IH. rewrite IH. reflexivity.
Qed.

Lemma run_sound r s k :
  Re.run r s k = true -> exists u v, s = u ++ v /\ Re.matches r u /\ k v = true.
Proof.
  revert s k. induction r as [|c|r1 IH1 r2 IH2|r1 IH1 r2 IH2|r1 IH1|items];
    intros s k; simpl; intros Hrun.
  - exists [], s. repeat split; auto. constructor.
  - destruct s as [|d s]; [discriminate|].
    apply andb_true_iff in Hrun as [Hc Hk]. apply Ascii.eqb_eq in Hc as ->.
    exists [d], s. repeat split; auto. constructor.
  - apply IH1 in Hrun as (u1 & v1 & -> & Hm1 & Hrun).
    apply IH2 in Hrun as (u2 & v2 & -> & Hm2 & Hk).
    exists (u1 ++ u2), v2. rewrite <- app_assoc. repeat split; auto. now constructor.
  - apply orb_true_iff in Hrun as [Hrun|Hrun].
    + apply IH1 in Hrun as (u & v & -> & Hm & Hk). exists u, v. auto using Re.m_alt_l.
    + apply IH2 in Hrun as (u & v & -> & Hm & Hk). exists u, v. auto using Re.m_alt_r.
  - apply orb_true_iff in Hrun as [Hrun|Hk].
    + apply IH1 in Hrun as (u & v & -> & Hm & Hk). exists u, v. auto using Re.m_opt_some.
    + exists [], s. auto using Re.m_opt_none.
  - apply plus_set_sound in Hrun as (c & u & v & -> & Hc & Hu & Hk).
    exists (c :: u), v. repeat split; auto. now constructor.
Qed.

Lemma run_complete r u v k :
  Re.matches r u -> k v = true -> Re.run r (u ++ v) k = true.
Proof.
  intros Hm. revert v k.
  induction Hm as [|c|r1 r2 u1 u2 _ IH1 _ IH2|r1 r2 u _ IH|r1 r2 u _ IH|r u _ IH|r
                  |items c u Hc Hu]; intros v k Hk; simpl.
  - exact Hk.
  - now rewrite Ascii.eqb_refl, Hk.
  - rewrite <- app_assoc. apply IH1. now apply IH2.
  - rewrite IH by assumption. reflexivity.
  - rewrite IH by assumption. apply orb_true_r.
  - rewrite IH by assumption. reflexivity.
  - rewrite Hk. apply orb_true_r.
  - now apply plus_set_complete.
Qed.

(** Matching at position 0 is matching some prefix. *)
Lemma re_match_spec r s :
  Re.re_match r s = true <->
  exists u v, list_ascii_of_string s = u ++ v /\ Re.matches r u.
Proof.
  unfold Re.re_match. split.
  - intros Hrun. apply run_sound in Hrun as (u & v & Hs & Hm & _). eauto.
  - intros (u & v & -> & Hm). now apply run_complete.
Qed.

Lemma matches_words r u :
  Re.plus_free r = true -> (Re.matches r u <-> u ∈ Re.words r).
Proof.
  revert u. induction r as [|c|r1 IH1 r2 IH2|r1 IH1 r2 IH2|r1 IH1|items];
    intros u; simpl; intros Hfree.
  - split; [intros Hm; inversion Hm; apply list_elem_of_singleton; reflexivity|].
    intros ->%list_elem_of_singleton. constructor.
  - split; [intros Hm; inversion Hm; apply list_elem_of_singleton; reflexivity|].
    intros ->%list_elem_of_singleton. constructor.
  - apply andb_true_iff in Hfree as [Hf1 Hf2]. split.
    + intros Hm. inversion Hm as [| |? ? u1 u2 Hm1 Hm2| | | | |]; subst.
      apply list_elem_of_bind. exists u1. split; [|now apply IH1].
      apply list_elem_of_bind. exists u2. split; [|now apply IH2].
      apply list_elem_of_singleton. reflexivity.
    + intros (u1 & Hin & Hu1)%list_elem_of_bind.
      apply list_elem_of_bind in Hin as (u2 & ->%list_elem_of_singleton & Hu2).
      constructor; [now apply IH1 | now apply IH2].
  - apply andb_true_iff in Hfree as [Hf1 Hf2]. rewrite elem_of_app. split.
    + intros Hm. inversion Hm; subst; [left; now apply IH1 | right; now apply IH2].
    + intros [Hin|Hin]; [apply Re.m_alt_l; now apply IH1 | apply Re.m_alt_r; now apply IH2].
  - rewrite elem_of_app, list_elem_of_singleton. split.
    + intros Hm. inversion Hm; subst; [left; now apply IH1 | now right].
    + intros [Hin| ->]; [apply Re.m_opt_some; now apply IH1 | apply Re.m_opt_none].
  - discriminate.
Qed.

Lemma matches_seq_words a rest u :
  Re.plus_free a = true ->
  (Re.matches (Re.Seq a rest) u <->
   exists p t, p ∈ Re.words a /\ Re.matches rest t /\ u = p ++ t).
Proof.
  intros Hfree. split.
  - intros Hm. inversion Hm as [| |? ? p t Hp Ht| | | | |]; subst.
    exists p, t. repeat split; auto. now apply matches_words.
  - intros (p & t & Hp & Ht & ->). constructor; [now apply matches_words | assumption].
Qed.

Lemma list_ascii_of_string_app (a b : string) :
  list_ascii_of_string (a +:+ b) = list_ascii_of_string a ++ list_ascii_of_string b.
Proof. induction a as [|c a IH]; [reflexivity|]. cbn. now rewrite <- IH. Qed.

Lemma string_of_list_ascii_app (a b : list ascii) :
  string_of_list_ascii (a ++ b) = string_of_list_ascii a +:+ string_of_list_ascii b.
Proof. induction a as [|c a IH]; [reflexivity|]. cbn. now rewrite IH. Qed.

(** The words [playlist_pattern] denotes: one of the schemes, one of the
    [www] prefixes, one of the hosts the pattern lets through, the path and
    one or more identifier characters. *)
Lemma playlist_pattern_words u :
  Re.matches playlist_pattern u <->
  exists scheme www host c id,
    scheme ∈ schemes /\ www ∈ www_prefixes /\ host ∈ accepted_hosts /\
    id_char c = true /\ Forall (fun d => id_char d = true) id /\
    u = list_ascii_of_string scheme ++ list_ascii_of_string www ++
        list_ascii_of_string host ++ list_ascii_of_string "/playlist?list=" ++ c :: id.
Proof.
  unfold playlist_pattern.
  rewrite matches_seq_words by reflexivity.
  setoid_rewrite matches_seq_words; [|reflexivity].
  setoid_rewrite matches_seq_words; [|reflexivity].
  setoid_rewrite matches_seq_words; [|reflexivity].
  change (Re.words (Re.Opt (Re.Seq (Re.lit "http")
            (Re.Seq (Re.Opt (Re.Chr "s")) (Re.lit "://")))))
    with (list_ascii_of_string <$> schemes).
  change (Re.words (Re.Opt (Re.lit "www."))) with (list_ascii_of_string <$> www_prefixes).
  change (Re.words (Re.Alt (Re.lit "youtube.com")
            (Re.Seq (Re.lit "youtu") (Re.Seq (Re.Opt (Re.Chr ".")) (Re.lit "be")))))
    with (list_ascii_of_string <$> accepted_hosts).
  change (Re.words (Re.lit "/playlist?list="))
    with [list_ascii_of_string "/playlist?list="].
  split.
  - intros (p1 & t1 & Hp1 & (p2 & t2 & Hp2 & (p3 & t3 & Hp3 &
             (p4 & t4 & Hp4 & Hplus & ->) & ->) & ->) & ->).
    apply list_elem_of_fmap in Hp1 as (scheme & -> & Hscheme).
    apply list_elem_of_fmap in Hp2 as (www & -> & Hwww).
    apply list_elem_of_fmap in Hp3 as (host & -> & Hhost).
    apply list_elem_of_singleton in Hp4 as ->.
    inversion Hplus as [| | | | | | |items c id Hc Hid]; subst.
    exists scheme, www, host, c, id. repeat split; auto.
  - intros (scheme & www & host & c & id & Hscheme & Hwww & Hhost & Hc & Hid & ->).
    exists (list_ascii_of_string scheme). eexists. split; [now apply list_elem_of_fmap_2|].
    split; [|reflexivity].
    exists (list_ascii_of_string www). eexists. split; [now apply list_elem_of_fmap_2|].
    split; [|reflexivity].
    exists (list_ascii_of_string host). eexists. split; [now apply list_elem_of_fmap_2|].
    split; [|reflexivity].
    exists (list_ascii_of_string "/playlist?list="). eexists.
    split; [now apply list_elem_of_singleton|]. split; [|reflexivity].
    now constructor.
Qed.

(** What the validator accepts, exactly: the documented shape with one
    more host, [youtube] without a top-level domain, let through by the
    optional dot of [youtu\.?be]. *)
Lemma is_valid_playlist_url_spec self url :
  is_valid_playlist_url self url = true <-> playlist_shape accepted_hosts url.
Proof.
  unfold is_valid_playlist_url, playlist_shape. rewrite re_match_spec. split.
  - intros (u & v & Hurl & Hm).
    apply playlist_pattern_words in Hm
      as (scheme & www & host & c & id & Hscheme & Hwww & Hhost & Hc & Hid & ->).
    exists scheme, www, host, (string_of_list_ascii (c :: id)), (string_of_list_ascii v).
    rewrite list_ascii_of_string_of_list_ascii.
    split; [exact Hscheme|]. split; [exact Hwww|]. split; [exact Hhost|].
    split; [discriminate|]. split; [now constructor|].
    rewrite <- (string_of_list_ascii_of_string url), Hurl.
    rewrite <- !app_assoc, !string_of_list_ascii_app, !string_of_list_ascii_of_string.
    reflexivity.
  - intros (scheme & www & host & id & rest & Hscheme & Hwww & Hhost & Hne & Hid & ->).
    destruct id as [|c id]; [contradiction|].
    inversion Hid as [|? ? Hc Hid']; subst.
    exists (list_ascii_of_string scheme ++ list_ascii_of_string www ++
            list_ascii_of_string host ++ list_ascii_of_string "/playlist?list=" ++
            c :: list_ascii_of_string id), (list_ascii_of_string rest).
    split.
    + rewrite !list_ascii_of_string_app, <- !app_assoc. reflexivity.
    + apply playlist_pattern_words.
      exists scheme, www, host, c, (list_ascii_of_string id). repeat split; auto.
Qed.

(** Every URL of the documented shape is accepted. *)
Lemma documented_shape_accepted self url :
  playlist_shape documented_hosts url -> is_valid_playlist_url self url = true.
Proof.
  intros (scheme & www & host & id & rest & Hscheme & Hwww & Hhost & Hrest).
  apply is_valid_playlist_url_spec. exists scheme, www, host, id, rest.
  repeat split; try apply Hrest; auto.
  unfold accepted_hosts. apply elem_of_app. now left.
Qed.

(** The two examples of the specification. *)
Lemma playlist_url_example_accepted self :
  is_valid_playlist_url self "https://www.youtube.com/playlist?list=PL123" = true.
Proof. reflexivity. Qed.

Lemma watch_url_example_rejected self :
  is_valid_playlist_url self "https://www.youtube.com/watch?v=abc123" = false.
Proof. reflexivity. Qed.

(** C4, where the code departs from it. The string
    [youtube/playlist?list=PL123] names neither [youtube.com] nor [youtu.be]
    and is not of the documented shape, and the validator accepts it. *)
Theorem bare_youtube_host_is_accepted self :
  is_valid_playlist_url self "youtube/playlist?list=PL123" = true /\
  ~ playlist_shape documented_hosts "youtube/playlist?list=PL123".
Proof.
  split; [reflexivity|].
  intros (scheme & www & host & id & rest & Hscheme & Hwww & Hhost & _ & _ & Hurl).
  unfold schemes, www_prefixes, documented_hosts in *.
  repeat (apply elem_of_cons in Hscheme as [-> | Hscheme]);
    [| | | now apply elem_of_nil in Hscheme];
    (repeat (apply elem_of_cons in Hwww as [-> | Hwww]);
       [| | now apply elem_of_nil in Hwww]);
    (repeat (apply elem_of_cons in Hhost as [-> | Hhost]);
       [| | now apply elem_of_nil in Hhost]);
    cbv in Hurl; discriminate Hurl.
Qed.

Lemma string_app_assoc (a b c : string) : (a +:+ b) +:+ c = a +:+ (b +:+ c).
Proof.
  induction a as [|x a IH]; [reflexivity|].
  change (String x ((a +:+ b) +:+ c) = String x (a +:+ (b +:+ c))). now rewrite IH.
Qed.

(** No string without [list=] is accepted. *)
Lemma accepted_url_has_list_parameter self url :
  is_valid_playlist_url self url = true ->
  exists before after, url = before +:+ "list=" +:+ after.
Proof.
  intros (scheme & www & host & id & rest & _ & _ & _ & _ & _ & ->)%is_valid_playlist_url_spec.
  exists (scheme +:+ www +:+ host +:+ "/playlist?"), (id +:+ rest).
  rewrite !string_app_assoc. reflexivity.
Qed.

(** ** [sorted] and [enumerate] *)

Lemma sorted_Permutation (s : gset nat) : sorted s ≡ₚ elements s.
Proof. apply merge_sort_Permutation. Qed.

Lemma elem_of_sorted (s : gset nat) (x : nat) : x ∈ sorted s ↔ x ∈ s.
Proof. rewrite sorted_Permutation. apply elem_of_elements. Qed.

Lemma length_sorted (s : gset nat) : length (sorted s) = size s.
Proof. unfold size, set_size. simpl. now rewrite sorted_Permutation. Qed.

Lemma NoDup_sorted (s : gset nat) : NoDup (sorted s).
Proof. rewrite sorted_Permutation. apply NoDup_elements. Qed.

Lemma StronglySorted_le_lt (l : list nat) :
  NoDup l -> StronglySorted le l -> StronglySorted lt l.
Proof.
  induction 2 as [|x l Hs IH Hall]; constructor.
  - apply IH. now apply NoDup_cons_1_2 in H.
  - apply NoDup_cons in H as [Hx _].
    rewrite Forall_forall in Hall |- *. intros y Hy.
    specialize (Hall y Hy).
    assert (x <> y) by (intros ->; contradiction).
    lia.
Qed.

Lemma sorted_ascending (s : gset nat) : StronglySorted lt (sorted s).
Proof.
  apply StronglySorted_le_lt; [apply NoDup_sorted|].
  apply StronglySorted_merge_sort; apply _.
Qed.

Lemma length_enumerate_from {A} (n : nat) (l : list A) :
  length (enumerate_from n l) = length l.
Proof. revert n; induction l; simpl; auto. Qed.

Lemma snd_enumerate_from {A} (n : nat) (l : list A) :
  snd <$> enumerate_from n l = l.
Proof. revert n; induction l as [|x l IH]; intros n; simpl; f_equal; auto. Qed.

Lemma fst_enumerate_from {A} (n : nat) (l : list A) :
  fst <$> enumerate_from n l = seq n (length l).
Proof. revert n; induction l as [|x l IH]; intros n; simpl; f_equal; auto. Qed.

Lemma lookup_enumerate_from {A} (n k : nat) (l : list A) (i : nat) (x : A) :
  enumerate_from n l !! k = Some (i, x) <-> i = n + k /\ l !! k = Some x.
Proof.
  revert n k; induction l as [|y l IH]; intros n k; simpl.
  - split; [discriminate | intros [_ ?]; discriminate].
  - destruct k as [|k]; simpl.
    + split.
      * intros [= <- <-]. split; [lia | reflexivity].
      * intros [-> [= ->]]. do 2 f_equal. lia.
    + rewrite IH. split; intros [-> ?]; split; auto; lia.
Qed.

(** ** The console of a run *)

Lemma outcomes_app (a b : list ConsoleLine) : outcomes (a ++ b) = outcomes a ++ outcomes b.
Proof. apply omap_app. Qed.

Lemma attempts_app (a b : list ConsoleLine) : attempts (a ++ b) = attempts a ++ attempts b.
Proof. apply omap_app. Qed.

Lemma succeeded_app (a b : list ConsoleLine) : succeeded (a ++ b) = succeeded a + succeeded b.
Proof. unfold succeeded. now rewrite outcomes_app, filter_app, length_app. Qed.

(** ** The loop of [download_videos] *)

Section LoopFacts.
Context `{Services}.

Lemma extends_refl total r : extends total r r [] [].
Proof.
  exists [], []. rewrite !app_nil_r. unfold succeeded. simpl.
  repeat split; auto.
Qed.

Lemma extends_trans total r1 r2 r3 o1 a1 o2 a2 :
  extends total r1 r2 o1 a1 -> extends total r2 r3 o2 a2 ->
  extends total r1 r3 (o1 ++ o2) (a1 ++ a2).
Proof.
  intros (l1 & e1 & Hc1 & Ho1 & Ha1 & Hl1 & Hs1 & Hu1 & He1)
         (l2 & e2 & Hc2 & Ho2 & Ha2 & Hl2 & Hs2 & Hu2 & He2).
  exists (l1 ++ l2), (e1 ++ e2).
  rewrite Hc2, Hc1, Hu2, Hu1, Hs2, Hs1, <- !app_assoc.
  rewrite outcomes_app, attempts_app, succeeded_app, fmap_app, Ho1, Ho2, Ha1, Ha2.
  repeat split; auto using Forall_app_2. lia.
Qed.

Lemma path_exists_getsize w p :
  path_exists w p = true -> exists n, getsize w p = Returned n.
Proof.
  unfold path_exists, getsize. destruct (fs_size w p); [eauto | discriminate].
Qed.

Ltac item_done :=
  eexists; rewrite <- ?app_assoc; simpl; repeat split; eauto;
  solve [ match goal with
          | |- context [succeeded ?l] =>
              let k := eval vm_compute in (succeeded l) in
              change (succeeded l) with k
          end; lia
        | repeat (constructor; simpl; auto) ].

(** Whatever the service does, the [try] block leaves exactly one outcome
    record, for this position and title. *)
Lemma try_download_spec opts total i url title r :
  exists kind lines evs,
    let r' := try_download opts total i url title r in
    console_content r' = console_content r ++ CConnecting (i + 1) total url :: lines /\
    outcomes lines = [(i + 1, title, kind)] /\
    attempts lines = [] /\
    Forall (line_total total) lines /\
    success_count r' = success_count r + succeeded lines /\
    ui r' = ui r ++ evs /\
    Forall (reports_total total) evs.
Proof.
  unfold try_download.
  destruct (ydl_extract_info _ _ _) as [w [info|msg]]; simpl.
  - destruct (ydl_prepare_filename _ _ _) as [filename|msg]; simpl.
    + unfold path_exists, getsize. destruct (fs_size w filename); simpl.
      * exists OSuccess, [CSuccess (i + 1) total title n]. item_done.
      * exists OFileNotCreated, [CFailed (i + 1) total title]. item_done.
    + exists OError, [CError (i + 1) total title; CDetails msg]. item_done.
  - exists OError, [CError (i + 1) total title; CDetails msg]. item_done.
Qed.

Lemma loop_body_skip session video_urls opts total i idx r :
  ~ idx < length video_urls ->
  loop_body session video_urls opts total i idx r = Returned r.
Proof. intros Hge. unfold loop_body. now case_decide. Qed.

Lemma loop_body_in_range session video_urls opts total i idx r :
  idx < length video_urls -> idx < length (video_data session) ->
  exists r',
    loop_body session video_urls opts total i idx r = Returned r' /\
    extends total r r' [(i + 1, title_of session idx)] [(i + 1, url_of video_urls idx)].
Proof.
  intros Hu Hd. unfold loop_body, title_of, url_of.
  case_decide; [|contradiction].
  apply lookup_lt_is_Some_2 in Hu as [url ->].
  apply lookup_lt_is_Some_2 in Hd as [vd ->]. simpl.
  match goal with |- context [try_download ?o ?t ?j ?u ?ti ?r0] =>
    destruct (try_download_spec o t j u ti r0)
      as (kind & lines & evs & Hc & Ho & Ha & Hl & Hs & Hui & He)
  end.
  simpl in *. eexists. split; [reflexivity|].
  exists (CStarting (i + 1) total (vd_title vd) :: CConnecting (i + 1) total url :: lines).
  eexists. simpl. rewrite Hc, Hui, Hs.
  change (succeeded (CStarting (i + 1) total (vd_title vd) ::
                     CConnecting (i + 1) total url :: lines)) with (succeeded lines).
  rewrite Ho, Ha, <- !app_assoc. simpl.
  repeat split; auto.
  - repeat (constructor; simpl; auto).
  - repeat (constructor; simpl; auto).
    apply Forall_app_2; [assumption|]. repeat (constructor; simpl; auto).
Qed.

Lemma in_range_cons_lt video_urls i idx items :
  idx < length video_urls ->
  in_range video_urls ((i, idx) :: items) = (i, idx) :: in_range video_urls items.
Proof. intros. unfold in_range. rewrite filter_cons. simpl. now case_decide. Qed.

Lemma in_range_cons_ge video_urls i idx items :
  ~ idx < length video_urls ->
  in_range video_urls ((i, idx) :: items) = in_range video_urls items.
Proof. intros. unfold in_range. rewrite filter_cons. simpl. now case_decide. Qed.

(** The loop never lets an exception out as long as every URL has its
    entry in [video_data], and it leaves one attempt and one outcome for
    each index that passes the guard, in the order of [items]. *)
Lemma download_loop_spec session video_urls opts total items r :
  length video_urls <= length (video_data session) ->
  exists r',
    download_loop session video_urls opts total items r = Returned r' /\
    extends total r r' (expected_outcomes session video_urls items)
                       (expected_attempts video_urls items).
Proof.
  intros Hlen. revert r.
  induction items as [|[i idx] items IH]; intros r; simpl.
  - exists r. split; [reflexivity | apply extends_refl].
  - unfold expected_outcomes, expected_attempts.
    destruct (decide (idx < length video_urls)) as [Hlt|Hge].
    + destruct (loop_body_in_range session video_urls opts total i idx r)
        as (r1 & -> & Hext1); [lia..|].
      destruct (IH r1) as (r2 & -> & Hext2).
      exists r2. split; [reflexivity|].
      rewrite in_range_cons_lt by assumption. simpl.
      apply (extends_trans _ _ _ _ [_] [_] _ _ Hext1 Hext2).
    + rewrite loop_body_skip by assumption.
      destruct (IH r) as (r2 & -> & Hext2).
      exists r2. split; [reflexivity|].
      now rewrite in_range_cons_ge by assumption.
Qed.

Lemma download_loop_app session video_urls opts total a b r :
  download_loop session video_urls opts total (a ++ b) r =
  match download_loop session video_urls opts total a r with
  | Returned r' => download_loop session video_urls opts total b r'
  | Raised msg => Raised msg
  end.
Proof.
  revert r. induction a as [|[i idx] a IH]; intros r; simpl; [reflexivity|].
  destruct (loop_body _ _ _ _ _ _ _); [apply IH | reflexivity].
Qed.

(** ** Before and after the loop *)

Lemma console_header_spec self audio_only quality total w :
  let r := console_header self audio_only quality total (start_run w) in
  world r = w /\ success_count r = 0 /\
  outcomes (console_content r) = [] /\ attempts (console_content r) = [] /\
  succeeded (console_content r) = 0 /\
  Forall (line_total total) (console_content r) /\
  Forall (reports_total total) (ui r).
Proof.
  destruct audio_only; simpl; repeat split; repeat (constructor; simpl; auto).
Qed.

Lemma final_summary_spec self total r :
  let r' := final_summary self total r in
  world r' = world r /\ success_count r' = success_count r /\
  (exists evs, ui r' = ui r ++ evs /\ Forall (reports_total total) evs) /\
  (success_count r = total ->
     console_content r' = console_content r ++
       [CRule; CAllCompleted (success_count r) total; CFilesSaved (download_path self)]) /\
  (success_count r <> total -> 0 < success_count r ->
     console_content r' = console_content r ++
       [CRule; CPartial (success_count r) total;
        CFailedCount (total - success_count r); CFilesSaved (download_path self)]) /\
  (success_count r <> total -> success_count r = 0 ->
     console_content r' = console_content r ++
       [CRule; CAllFailed total; CFilesSaved (download_path self)]).
Proof.
  unfold final_summary. simpl.
  destruct (Nat.eqb_spec (success_count r) total) as [He|Hne]; simpl.
  - repeat split; try (intros; exfalso; lia).
    + eexists. rewrite <- !app_assoc. split; [reflexivity|].
      repeat (constructor; simpl; auto).
    + intros _. now rewrite <- !app_assoc.
  - destruct (Nat.ltb_spec 0 (success_count r)) as [Hpos|Hz]; simpl.
    + repeat split; try (intros; exfalso; lia).
      * eexists. rewrite <- !app_assoc. split; [reflexivity|].
        repeat (constructor; simpl; auto).
      * intros _ _. now rewrite <- !app_assoc.
    + repeat split; try (intros; exfalso; lia).
      * eexists. rewrite <- !app_assoc. split; [reflexivity|].
        repeat (constructor; simpl; auto).
      * intros _ _. now rewrite <- !app_assoc.
Qed.

(** The console of a finished summary records the same outcomes and
    attempts as the console the loop left. *)
Lemma final_summary_console self total r :
  exists tail,
    console_content (final_summary self total r) = console_content r ++ tail /\
    outcomes tail = [] /\ attempts tail = [] /\ Forall (line_total total) tail.
Proof.
  destruct (final_summary_spec self total r) as (_ & _ & _ & Hall & Hpart & Hnone).
  destruct (decide (success_count r = total)) as [He|Hne].
  - eexists. split; [apply Hall, He|]. repeat split; repeat (constructor; simpl; auto).
  - destruct (decide (0 < success_count r)) as [Hpos|Hz].
    + eexists. split; [apply Hpart; assumption|].
      repeat split; repeat (constructor; simpl; auto).
    + eexists. split; [apply Hnone; [assumption | lia]|].
      repeat split; repeat (constructor; simpl; auto).
Qed.

Lemma size_non_empty (sel : gset nat) : sel <> ∅ -> size sel <> 0.
Proof. intros Hne Hz. apply Hne. now apply size_empty_inv, leibniz_equiv in Hz. Qed.

(** A batch over a non-empty URL list and a non-empty selection runs the
    header, the loop and the summary; [r1] is the state the loop leaves. *)
Lemma download_videos_runs self session video_urls sel audio_only quality w :
  video_urls <> [] -> sel <> ∅ ->
  length video_urls <= length (video_data session) ->
  exists r1,
    download_loop session video_urls (build_ydl_opts self audio_only quality)
      (size sel) (enumerate (sorted sel))
      (console_header self audio_only quality (size sel) (start_run w)) = Returned r1 /\
    extends (size sel)
      (console_header self audio_only quality (size sel) (start_run w)) r1
      (expected_outcomes session video_urls (enumerate (sorted sel)))
      (expected_attempts video_urls (enumerate (sorted sel))) /\
    download_videos self session video_urls sel audio_only quality w =
      Returned (0 <? success_count r1, final_summary self (size sel) r1).
Proof.
  intros Hu Hs Hlen.
  destruct (download_loop_spec session video_urls
              (build_ydl_opts self audio_only quality) (size sel)
              (enumerate (sorted sel))
              (console_header self audio_only quality (size sel) (start_run w)) Hlen)
    as (r1 & Hloop & Hext).
  exists r1. repeat split; try assumption.
  unfold download_videos. destruct video_urls as [|u us]; [contradiction|].
  apply size_non_empty in Hs.
  destruct (Nat.eqb_spec (size sel) 0) as [Hz|_]; [contradiction|].
  rewrite Hloop.
  now destruct (final_summary_spec self (size sel) r1) as (_ & -> & _).
Qed.

(** What a caller can read off a finished batch: [body] is the console up
    to the summary, which follows it and depends on the success counter
    alone. *)
Lemma download_videos_observed self session video_urls sel audio_only quality w :
  video_urls <> [] -> sel <> ∅ ->
  length video_urls <= length (video_data session) ->
  exists r body tail,
    download_videos self session video_urls sel audio_only quality w =
      Returned (0 <? succeeded body, r) /\
    console_content r = body ++ tail /\
    outcomes tail = [] /\ attempts tail = [] /\
    (fst <$> outcomes body) =
      expected_outcomes session video_urls (enumerate (sorted sel)) /\
    attempts body = expected_attempts video_urls (enumerate (sorted sel)) /\
    success_count r = succeeded body /\
    Forall (line_total (size sel)) (console_content r) /\
    Forall (reports_total (size sel)) (ui r) /\
    (succeeded body = size sel ->
       tail = [CRule; CAllCompleted (succeeded body) (size sel);
               CFilesSaved (download_path self)]) /\
    (succeeded body <> size sel -> 0 < succeeded body ->
       tail = [CRule; CPartial (succeeded body) (size sel);
               CFailedCount (size sel - succeeded body);
               CFilesSaved (download_path self)]) /\
    (succeeded body <> size sel -> succeeded body = 0 ->
       tail = [CRule; CAllFailed (size sel); CFilesSaved (download_path self)]).
Proof.
  intros Hu Hs Hlen.
  destruct (download_videos_runs self session video_urls sel audio_only quality w
              Hu Hs Hlen) as (r1 & _ & Hext & Hrun).
  destruct (console_header_spec self audio_only quality (size sel) w)
    as (_ & Hs0 & Ho0 & Ha0 & Hn0 & Hl0 & Hui0).
  destruct Hext as (lines & evs & Hc & Ho & Ha & Hl & Hsc & Hui & He).
  destruct (final_summary_spec self (size sel) r1)
    as (_ & Hsf & (evs' & Huif & Hef) & Hall & Hpart & Hnone).
  destruct (final_summary_console self (size sel) r1)
    as (tail & Hct & Hot & Hat & Hlt).
  assert (Hcount : success_count r1 = succeeded (console_content r1)).
  { rewrite Hsc, Hs0, Hc, succeeded_app, Hn0. reflexivity. }
  exists (final_summary self (size sel) r1), (console_content r1), tail.
  rewrite <- Hcount.
  repeat split; try assumption.
  - rewrite Hc, outcomes_app, Ho0. exact Ho.
  - rewrite Hc, attempts_app, Ha0. exact Ha.
  - rewrite Hct, Hc. auto using Forall_app_2.
  - rewrite Huif, Hui. auto using Forall_app_2.
  - intros Heq. apply Hall in Heq. rewrite Hct in Heq. now apply app_inv_head in Heq.
  - intros Hne Hpos. specialize (Hpart Hne Hpos). rewrite Hct in Hpart.
    now apply app_inv_head in Hpart.
  - intros Hne Hz. specialize (Hnone Hne Hz). rewrite Hct in Hnone.
    now apply app_inv_head in Hnone.
Qed.

Lemma in_range_all video_urls (items : list (nat * nat)) :
  Forall (fun it => it.2 < length video_urls) items ->
  in_range video_urls items = items.
Proof.
  induction 1 as [|[i idx] items Hlt _ IH]; [reflexivity|].
  simpl in Hlt. rewrite in_range_cons_lt by assumption. now rewrite IH.
Qed.

Lemma enumerate_in_range video_urls (sel : gset nat) :
  set_Forall (fun idx => idx < length video_urls) sel ->
  in_range video_urls (enumerate (sorted sel)) = enumerate (sorted sel).
Proof.
  intros Hall. apply in_range_all. rewrite Forall_forall.
  intros [i idx] Hin. simpl. apply Hall, elem_of_sorted.
  apply (list_elem_of_fmap_2 snd) in Hin.
  unfold enumerate in Hin. now rewrite snd_enumerate_from in Hin.
Qed.

End LoopFacts.

(** ** One outcome per selected index *)

Section Batch.
Context `{Services}.

(** C1. A non-empty selection whose indices are all below
    [len(video_urls)] gets exactly one outcome record per selected index:
    the k-th record carries position k and the title of the k-th smallest
    selected index, there are [len(selected_indices)] records, and the
    indices visited are the selected ones, each once. The session is one
    [main] builds: [video_data] and [video_urls] have the same length. *)
Theorem download_videos_one_outcome_per_index
    self session video_urls (sel : gset nat) audio_only quality w :
  sel <> ∅ ->
  set_Forall (fun idx => idx < length video_urls) sel ->
  length (video_data session) = length video_urls ->
  exists b r,
    download_videos self session video_urls sel audio_only quality w = Returned (b, r) /\
    length (outcomes (console_content r)) = size sel /\
    (fst <$> outcomes (console_content r)) =
      (fun it => (it.1 + 1, title_of session it.2)) <$> enumerate (sorted sel) /\
    sorted sel ≡ₚ elements sel /\ NoDup (sorted sel).
Proof.
  intros Hs Hall Hlen.
  assert (Hu : video_urls <> []).
  { intros ->. apply set_choose_L in Hs as [x Hx]. apply Hall in Hx. simpl in Hx. lia. }
  destruct (download_videos_observed self session video_urls sel audio_only quality w)
    as (r & body & tail & Hrun & Hc & Hot & _ & Ho & _); [assumption | assumption | lia |].
  exists (0 <? succeeded body), r. split; [exact Hrun|].
  assert (Hkeys : (fst <$> outcomes (console_content r)) =
                  (fun it => (it.1 + 1, title_of session it.2)) <$> enumerate (sorted sel)).
  { rewrite Hc, outcomes_app, Hot, app_nil_r, Ho. unfold expected_outcomes.
    now rewrite enumerate_in_range. }
  repeat split.
  - apply (f_equal length) in Hkeys. rewrite !length_fmap in Hkeys.
    rewrite Hkeys. unfold enumerate. now rewrite length_enumerate_from, length_sorted.
  - exact Hkeys.
  - apply sorted_Permutation.
  - apply NoDup_sorted.
Qed.

(** ** Ascending order *)

Lemma download_videos_early self session video_urls (sel : gset nat)
    audio_only quality w :
  video_urls = [] \/ sel = ∅ ->
  exists msg,
    download_videos self session video_urls sel audio_only quality w =
      Returned (false, emit (UiError msg) (start_run w)).
Proof.
  intros Hcase. unfold download_videos.
  destruct video_urls as [|u us]; [eauto|].
  destruct Hcase as [?| ->]; [discriminate|].
  rewrite size_empty. simpl. eauto.
Qed.

Lemma in_range_nil (items : list (nat * nat)) : in_range [] items = [].
Proof.
  induction items as [|[i idx] items IH]; [reflexivity|].
  rewrite in_range_cons_ge; [exact IH | simpl; lia].
Qed.

Lemma sorted_empty : sorted ∅ = [].
Proof. unfold sorted. now rewrite elements_empty. Qed.

(** C3. Whatever the order in which the indices were added to the
    selection, the attempts and the outcome records follow the ascending
    order of the indices: position k goes to the k-th smallest selected
    index (those not below [len(video_urls)] keep their position but are
    passed over), and [sorted] lists the inserted indices strictly
    ascending. *)
Theorem download_videos_ascending_order
    self session video_urls (insertions : list nat) audio_only quality w :
  length (video_data session) = length video_urls ->
  exists b r,
    download_videos self session video_urls (list_to_set insertions)
      audio_only quality w = Returned (b, r) /\
    attempts (console_content r) =
      expected_attempts video_urls (enumerate (sorted (list_to_set insertions))) /\
    (fst <$> outcomes (console_content r)) =
      expected_outcomes session video_urls
        (enumerate (sorted (list_to_set insertions))) /\
    StronglySorted lt (sorted (list_to_set insertions)) /\
    (forall idx, idx ∈ sorted (list_to_set insertions) <-> idx ∈ insertions).
Proof.
  intros Hlen. set (sel := list_to_set insertions : gset nat).
  assert (Hsorted : StronglySorted lt (sorted sel) /\
                    (forall idx, idx ∈ sorted sel <-> idx ∈ insertions)).
  { split; [apply sorted_ascending|].
    intros idx. rewrite elem_of_sorted. apply elem_of_list_to_set. }
  destruct (decide (video_urls = [] \/ sel = ∅)) as [Hearly|Hrun].
  - destruct (download_videos_early self session video_urls sel audio_only quality w
                Hearly) as (msg & ->).
    eexists _, _. split; [reflexivity|]. simpl.
    unfold expected_attempts, expected_outcomes.
    destruct Hearly as [-> | ->].
    + rewrite in_range_nil. repeat split; apply Hsorted.
    + rewrite sorted_empty. repeat split; apply Hsorted.
  - assert (Hu : video_urls <> []) by (intros ?; apply Hrun; auto).
    assert (Hs : sel <> ∅) by (intros ?; apply Hrun; auto).
    destruct (download_videos_observed self session video_urls sel audio_only quality w)
      as (r & body & tail & Hres & Hc & Hot & Hat & Ho & Ha & _);
      [assumption | assumption | lia |].
    exists (0 <? succeeded body), r. rewrite Hc, attempts_app, outcomes_app, Hot, Hat.
    rewrite !app_nil_r. repeat split; try assumption; apply Hsorted.
Qed.

(** ** The terminal classification *)

(** C6. After the loop over a non-empty selection the last console lines
    depend on the number [n] of success records and on
    [total = len(selected_indices)] only: full success when [n = total],
    total failure when [n = 0] (and [total > 0]), and otherwise partial
    success with a failure count of [total - n]. *)
Theorem download_videos_classification
    self session video_urls (sel : gset nat) audio_only quality w :
  video_urls <> [] -> sel <> ∅ ->
  length (video_data session) = length video_urls ->
  exists b r body,
    download_videos self session video_urls sel audio_only quality w = Returned (b, r) /\
    (fst <$> outcomes body) =
      expected_outcomes session video_urls (enumerate (sorted sel)) /\
    0 < size sel /\ b = (0 <? succeeded body) /\ success_count r = succeeded body /\
    (succeeded body = size sel ->
       console_content r = body ++
         [CRule; CAllCompleted (succeeded body) (size sel);
          CFilesSaved (download_path self)]) /\
    (succeeded body = 0 ->
       console_content r = body ++
         [CRule; CAllFailed (size sel); CFilesSaved (download_path self)]) /\
    (succeeded body <> size sel -> succeeded body <> 0 ->
       console_content r = body ++
         [CRule; CPartial (succeeded body) (size sel);
          CFailedCount (size sel - succeeded body);
          CFilesSaved (download_path self)]).
Proof.
  intros Hu Hs Hlen.
  destruct (download_videos_observed self session video_urls sel audio_only quality w)
    as (r & body & tail & Hres & Hc & _ & _ & Ho & _ & Hsc & _ & _ & Hall & Hpart & Hnone);
    [assumption | assumption | lia |].
  pose proof (size_non_empty sel Hs) as Hpos.
  exists (0 <? succeeded body), r, body. rewrite Hc.
  repeat split; try assumption; try lia.
  - intros Heq. now rewrite Hall.
  - intros Hz. rewrite Hnone; [reflexivity | lia | assumption].
  - intros Hne Hnz. rewrite Hpart; [reflexivity | assumption | lia].
Qed.

(** ** Indices the URL list does not reach *)

Lemma elem_of_enumerate_from {A} (n : nat) (l : list A) (i : nat) (x : A) :
  (i, x) ∈ enumerate_from n l <-> n <= i /\ l !! (i - n) = Some x.
Proof.
  rewrite list_elem_of_lookup. split.
  - intros [k Hk]. apply lookup_enumerate_from in Hk as [-> Hx].
    split; [lia|]. now replace (n + k - n) with k by lia.
  - intros [Hle Hx]. exists (i - n). apply lookup_enumerate_from.
    split; [lia | assumption].
Qed.

Lemma position_not_in_range video_urls (l : list nat) (i idx : nat) (it : nat * nat) :
  l !! i = Some idx -> ~ idx < length video_urls ->
  it ∈ in_range video_urls (enumerate l) -> it.1 + 1 <> i + 1.
Proof.
  intros Hi Hge Hin Heq. unfold in_range in Hin.
  apply list_elem_of_filter in Hin as [Hlt Hin].
  destruct it as [j idx']. simpl in *.
  apply elem_of_enumerate_from in Hin as [_ Hj].
  assert (j = i) as -> by (clear -Heq; lia).
  rewrite Nat.sub_0_r in Hj. congruence.
Qed.

Lemma in_range_skipped_length video_urls (n : nat) (l : list nat) :
  length (in_range video_urls (enumerate_from n l)) +
  length (filter (fun j => ~ j < length video_urls) l) = length l.
Proof.
  revert n. induction l as [|idx l IH]; intros n; [reflexivity|]. simpl.
  rewrite filter_cons. specialize (IH (S n)).
  destruct (decide (idx < length video_urls)) as [Hlt|Hge].
  - rewrite in_range_cons_lt by assumption.
    destruct (decide (~ idx < length video_urls)); [contradiction|]. simpl. lia.
  - rewrite in_range_cons_ge by assumption.
    destruct (decide (~ idx < length video_urls)); [|contradiction]. simpl. lia.
Qed.

Lemma succeeded_le (console : list ConsoleLine) :
  succeeded console <= length (outcomes console).
Proof. apply length_filter. Qed.

(** C10, for a non-empty URL list. A selected index that is not below
    [len(video_urls)] is passed over: the call returns normally, no
    attempt and no outcome record carries that index's position, while
    every progress report and console line still counts
    [len(selected_indices)] items. The records and the passed-over indices
    add up to that total, so the batch is never a full success and the
    failure count [total - n] of the summary includes the passed-over
    indices. *)
Theorem download_videos_skips_stale_index
    self session video_urls (sel : gset nat) audio_only quality w (idx : nat) :
  video_urls <> [] -> idx ∈ sel -> length video_urls <= idx ->
  length (video_data session) = length video_urls ->
  exists b r body i,
    download_videos self session video_urls sel audio_only quality w = Returned (b, r) /\
    sorted sel !! i = Some idx /\
    (forall o, o ∈ outcomes (console_content r) -> o.1.1 <> i + 1) /\
    (forall a, a ∈ attempts (console_content r) -> a.1 <> i + 1) /\
    Forall (reports_total (size sel)) (ui r) /\
    Forall (line_total (size sel)) (console_content r) /\
    length (outcomes (console_content r)) +
      length (filter (fun j => ~ j < length video_urls) (sorted sel)) = size sel /\
    succeeded body < size sel /\
    (0 < succeeded body ->
       console_content r = body ++
         [CRule; CPartial (succeeded body) (size sel);
          CFailedCount (size sel - succeeded body);
          CFilesSaved (download_path self)]) /\
    (succeeded body = 0 ->
       console_content r = body ++
         [CRule; CAllFailed (size sel); CFilesSaved (download_path self)]).
Proof.
  intros Hu Hin Hge Hlen.
  assert (Hs : sel <> ∅) by (intros ->; now apply not_elem_of_empty in Hin).
  destruct (download_videos_observed self session video_urls sel audio_only quality w)
    as (r & body & tail & Hres & Hc & Hot & Hat & Ho & Ha & _ & Hl & Hui & _ & Hpart & Hnone);
    [assumption | assumption | lia |].
  apply elem_of_sorted, list_elem_of_lookup in Hin as [i Hi].
  assert (Hout : outcomes (console_content r) = outcomes body).
  { now rewrite Hc, outcomes_app, Hot, app_nil_r. }
  assert (Hatt : attempts (console_content r) = attempts body).
  { now rewrite Hc, attempts_app, Hat, app_nil_r. }
  assert (Hcount : length (outcomes body) +
            length (filter (fun j => ~ j < length video_urls) (sorted sel)) = size sel).
  { rewrite <- (length_fmap fst), Ho. unfold expected_outcomes, enumerate.
    rewrite length_fmap, in_range_skipped_length. apply length_sorted. }
  assert (Hskip : 0 < length (filter (fun j => ~ j < length video_urls) (sorted sel))).
  { assert (Hmem : idx ∈ filter (fun j => ~ j < length video_urls) (sorted sel)).
    { apply list_elem_of_filter. split; [lia|]. apply list_elem_of_lookup. eauto. }
    destruct (filter _ (sorted sel)); [inversion Hmem | simpl; lia]. }
  pose proof (succeeded_le body) as Hle.
  exists (0 <? succeeded body), r, body, i. rewrite Hout, Hatt.
  repeat split; try assumption; try lia.
  - intros o Ho'. apply (list_elem_of_fmap_2 fst) in Ho'. rewrite Ho in Ho'.
    unfold expected_outcomes in Ho'.
    apply list_elem_of_fmap in Ho' as (it & -> & Hit). simpl.
    apply (position_not_in_range video_urls (sorted sel) i idx it); [exact Hi | lia | exact Hit].
  - intros a Ha'. rewrite Ha in Ha'. unfold expected_attempts in Ha'.
    apply list_elem_of_fmap in Ha' as (it & -> & Hit). simpl.
    apply (position_not_in_range video_urls (sorted sel) i idx it); [exact Hi | lia | exact Hit].
  - intros Hpos. rewrite Hc, Hpart; [reflexivity | lia | assumption].
  - intros Hz. rewrite Hc, Hnone; [reflexivity | lia | assumption].
Qed.

(** ** Success means the file is there *)

Ltac exists_lines l :=
  eexists _, l; split; [reflexivity|]; simpl;
  split; [now rewrite <- !app_assoc|]; split; [reflexivity|];
  split; [|split].

(** C7. An item that passes the guard is counted as a success exactly
    when the download call returned, the service named a file for it and
    that file exists once the call is over; the record is then a success
    record. In every other case the counter is unchanged and the record is
    a failure; in particular a call that returns while its file is missing
    leaves a "file not created" record. *)
Theorem success_iff_file_exists
    session video_urls opts total i idx r (url : string) (vd : VideoData) :
  video_urls !! idx = Some url -> video_data session !! idx = Some vd ->
  exists r' lines,
    loop_body session video_urls opts total i idx r = Returned r' /\
    console_content r' = console_content r ++ lines /\
    let opts' := set_progress_hooks [vd_title vd] opts in
    let call := ydl_extract_info opts' url (world r) in
    let materialized :=
      exists info filename,
        call.2 = Returned info /\
        ydl_prepare_filename opts' info call.1 = Returned filename /\
        path_exists call.1 filename = true in
    world r' = call.1 /\
    (materialized ->
       success_count r' = success_count r + 1 /\
       outcomes lines = [(i + 1, vd_title vd, OSuccess)]) /\
    (~ materialized ->
       success_count r' = success_count r /\
       exists kind, kind <> OSuccess /\ outcomes lines = [(i + 1, vd_title vd, kind)]) /\
    (forall info filename,
       call.2 = Returned info ->
       ydl_prepare_filename opts' info call.1 = Returned filename ->
       path_exists call.1 filename = false ->
       success_count r' = success_count r /\
       outcomes lines = [(i + 1, vd_title vd, OFileNotCreated)]).
Proof.
  intros Hu Hd. unfold loop_body.
  pose proof (lookup_lt_Some _ _ _ Hu) as Hlt.
  case_decide; [|contradiction]. rewrite Hu, Hd. simpl.
  unfold try_download. simpl.
  destruct (ydl_extract_info _ url (world r)) as [w [info|msg]] eqn:Hcall; simpl.
  - destruct (ydl_prepare_filename _ info w) as [filename|msg] eqn:Hname; simpl.
    + unfold path_exists, getsize.
      destruct (fs_size w filename) as [n|] eqn:Hsize; simpl.
      * exists_lines [CStarting (i + 1) total (vd_title vd);
                      CConnecting (i + 1) total url;
                      CSuccess (i + 1) total (vd_title vd) n].
        -- intros _. split; reflexivity.
        -- intros Hno. exfalso. apply Hno. exists info, filename.
           rewrite Hname, Hsize. auto.
        -- intros info' filename' [= <-] Hn Hex. rewrite Hname in Hn.
           injection Hn as <-. rewrite Hsize in Hex. discriminate.
      * exists_lines [CStarting (i + 1) total (vd_title vd);
                      CConnecting (i + 1) total url;
                      CFailed (i + 1) total (vd_title vd)].
        -- intros (info' & filename' & [= <-] & Hn & Hex). rewrite Hname in Hn.
           injection Hn as <-. rewrite Hsize in Hex. discriminate.
        -- intros _. split; [reflexivity|].
           exists OFileNotCreated. split; [discriminate | reflexivity].
        -- intros _ _ _ _ _. split; reflexivity.
    + exists_lines [CStarting (i + 1) total (vd_title vd);
                    CConnecting (i + 1) total url;
                    CError (i + 1) total (vd_title vd); CDetails msg].
      * intros (info' & filename' & [= <-] & Hn & _). congruence.
      * intros _. split; [reflexivity|].
        exists OError. split; [discriminate | reflexivity].
      * intros info' filename' [= <-] Hn _. congruence.
  - exists_lines [CStarting (i + 1) total (vd_title vd);
                  CConnecting (i + 1) total url;
                  CError (i + 1) total (vd_title vd); CDetails msg].
    + intros (info' & filename' & Hr & _). discriminate.
    + intros _. split; [reflexivity|].
      exists OError. split; [discriminate | reflexivity].
    + intros info' filename' Hr. discriminate.
Qed.

(** ** Continue on error *)

Lemma loop_body_raised session video_urls opts total i idx r w' msg :
  idx < length video_urls -> idx < length (video_data session) ->
  ydl_extract_info (set_progress_hooks [title_of session idx] opts)
    (url_of video_urls idx) (world r) = (w', Raised msg) ->
  exists r',
    loop_body session video_urls opts total i idx r = Returned r' /\
    console_content r' = console_content r ++
      [CStarting (i + 1) total (title_of session idx);
       CConnecting (i + 1) total (url_of video_urls idx);
       CError (i + 1) total (title_of session idx); CDetails msg] /\
    success_count r' = success_count r /\ world r' = w'.
Proof.
  intros Hu Hd. unfold loop_body, title_of, url_of.
  case_decide; [|contradiction].
  apply lookup_lt_is_Some_2 in Hu as [url ->].
  apply lookup_lt_is_Some_2 in Hd as [vd ->]. simpl. intros Hcall.
  unfold try_download. simpl. rewrite Hcall. simpl.
  eexists. split; [reflexivity|]. simpl. rewrite <- !app_assoc. auto.
Qed.

(** C2. Let the download call of a selected item raise, in the world the
    items before it have left. The exception is caught: the call of
    [download_videos] still returns, the record written for that item is
    an error record, and the attempts and the outcome records of the
    finished batch cover every selected index that passes the guard, those
    after the failing item included. *)
Theorem download_videos_continues_after_exception
    self session video_urls (sel : gset nat) audio_only quality w
    (pre post : list (nat * nat)) (i idx : nat) (r_mid : Run) (w' : World) (msg : string) :
  length (video_data session) = length video_urls ->
  enumerate (sorted sel) = pre ++ (i, idx) :: post ->
  idx < length video_urls ->
  download_loop session video_urls (build_ydl_opts self audio_only quality) (size sel)
    pre (console_header self audio_only quality (size sel) (start_run w)) =
    Returned r_mid ->
  ydl_extract_info
    (set_progress_hooks [title_of session idx] (build_ydl_opts self audio_only quality))
    (url_of video_urls idx) (world r_mid) = (w', Raised msg) ->
  exists b r,
    download_videos self session video_urls sel audio_only quality w = Returned (b, r) /\
    outcomes (console_content r) !! length (in_range video_urls pre) =
      Some (i + 1, title_of session idx, OError) /\
    (fst <$> outcomes (console_content r)) =
      expected_outcomes session video_urls (pre ++ (i, idx) :: post) /\
    attempts (console_content r) =
      expected_attempts video_urls (pre ++ (i, idx) :: post).
Proof.
  intros Hlen Hsplit Hlt Hmid Hcall.
  assert (Hu : video_urls <> []) by (intros ->; simpl in Hlt; lia).
  assert (Hs : sel <> ∅).
  { intros ->. rewrite sorted_empty in Hsplit. now destruct pre. }
  set (opts := build_ydl_opts self audio_only quality) in *.
  set (r0 := console_header self audio_only quality (size sel) (start_run w)) in *.
  destruct (download_loop_spec session video_urls opts (size sel) pre r0)
    as (r_mid' & Hpre & Hext_pre); [lia|].
  rewrite Hmid in Hpre. injection Hpre as <-.
  destruct (loop_body_raised session video_urls opts (size sel) i idx r_mid w' msg)
    as (r_item & Hbody & Hc_item & _); [lia | lia | exact Hcall |].
  destruct (download_loop_spec session video_urls opts (size sel) post r_item)
    as (r_end & Hpost & Hext_post); [lia|].
  destruct (download_videos_runs self session video_urls sel audio_only quality w)
    as (r1 & Hloop & _ & Hrun); [assumption | assumption | lia |].
  fold opts r0 in Hloop. rewrite Hsplit, download_loop_app, Hmid in Hloop.
  simpl in Hloop. rewrite Hbody, Hpost in Hloop. injection Hloop as <-.
  destruct (download_videos_observed self session video_urls sel audio_only quality w)
    as (r & body & tail & Hres & Hc & Hot & Hat & Ho & Ha & _);
    [assumption | assumption | lia |].
  rewrite Hres in Hrun. injection Hrun as _ ->.
  destruct (final_summary_console self (size sel) r_end) as (tail' & Hct & Hot' & _).
  destruct (console_header_spec self audio_only quality (size sel) w)
    as (_ & _ & Ho0 & _).
  exists (0 <? succeeded body), (final_summary self (size sel) r_end).
  split; [exact Hres|]. split; [|split].
  - destruct Hext_pre as (l1 & _ & Hc1 & Ho1 & _).
    destruct Hext_post as (l2 & _ & Hc2 & _).
    rewrite Hct, Hc2, Hc_item, Hc1. fold r0 in Ho0.
    rewrite !outcomes_app, Ho0, Hot', app_nil_r. simpl.
    change (outcomes [CStarting (i + 1) (size sel) (title_of session idx);
                      CConnecting (i + 1) (size sel) (url_of video_urls idx);
                      CError (i + 1) (size sel) (title_of session idx); CDetails msg])
      with [(i + 1, title_of session idx, OError)].
    rewrite <- app_assoc. simpl.
    assert (Hn : length (in_range video_urls pre) = length (outcomes l1)).
    { rewrite <- (length_fmap fst (outcomes l1)), Ho1. unfold expected_outcomes.
      now rewrite length_fmap. }
    rewrite Hn. apply list_lookup_middle. reflexivity.
  - rewrite Hc, outcomes_app, Hot, app_nil_r, Ho, Hsplit. reflexivity.
  - rewrite Hc, attempts_app, Hat, app_nil_r, Ha, Hsplit. reflexivity.
Qed.

(** ** An empty selection *)

(** C8, as amended. With an empty selection [download_videos] shows one
    error message and returns [False] at once: the world is untouched, no
    console line is written, no item is attempted and nothing is counted.
    A selected index that is not below [len(video_urls)] is no such
    violation: with a non-empty URL list the batch runs, every selected
    index below [len(video_urls)] has its attempt and its outcome record,
    and the index beyond has neither. *)
Theorem download_videos_stops_only_for_empty_selection
    self session video_urls (sel : gset nat) audio_only quality w :
  (sel = ∅ ->
   exists msg r,
     download_videos self session video_urls sel audio_only quality w =
       Returned (false, r) /\
     world r = w /\ console_content r = [] /\ ui r = [UiError msg] /\
     success_count r = 0) /\
  (video_urls <> [] -> sel <> ∅ ->
   length (video_data session) = length video_urls ->
   exists b r,
     download_videos self session video_urls sel audio_only quality w = Returned (b, r) /\
     (forall i idx, sorted sel !! i = Some idx -> idx < length video_urls ->
        (i + 1, url_of video_urls idx) ∈ attempts (console_content r) /\
        (i + 1, title_of session idx) ∈ (fst <$> outcomes (console_content r))) /\
     (forall i idx, sorted sel !! i = Some idx -> length video_urls <= idx ->
        (forall a, a ∈ attempts (console_content r) -> a.1 <> i + 1) /\
        (forall o, o ∈ outcomes (console_content r) -> o.1.1 <> i + 1))).
Proof.
  split.
  - intros ->.
    destruct (download_videos_early self session video_urls ∅ audio_only quality w)
      as (msg & ->); [now right|].
    exists msg. eexists. split; [reflexivity|]. simpl. auto.
  - intros Hu Hs Hlen.
    destruct (download_videos_observed self session video_urls sel audio_only quality w)
      as (r & body & tail & Hres & Hc & Hot & Hat & Ho & Ha & _);
      [assumption | assumption | lia |].
    assert (Hout : (fst <$> outcomes (console_content r)) =
                   expected_outcomes session video_urls (enumerate (sorted sel))).
    { now rewrite Hc, outcomes_app, Hot, app_nil_r. }
    assert (Hatt : attempts (console_content r) =
                   expected_attempts video_urls (enumerate (sorted sel))).
    { now rewrite Hc, attempts_app, Hat, app_nil_r. }
    exists (0 <? succeeded body), r. split; [exact Hres|]. split.
    + intros i idx Hi Hlt.
      assert (Hin : (i, idx) ∈ in_range video_urls (enumerate (sorted sel))).
      { unfold in_range. apply list_elem_of_filter. split; [exact Hlt|].
        apply elem_of_enumerate_from. split; [lia|]. now rewrite Nat.sub_0_r. }
      rewrite Hatt, Hout. unfold expected_attempts, expected_outcomes.
      split; apply list_elem_of_fmap; exists (i, idx); auto.
    + intros i idx Hi Hge. split.
      * intros a Ha'. rewrite Hatt in Ha'. unfold expected_attempts in Ha'.
        apply list_elem_of_fmap in Ha' as (it & -> & Hit). simpl.
        apply (position_not_in_range video_urls (sorted sel) i idx it);
          [exact Hi | lia | exact Hit].
      * intros o Ho'. apply (list_elem_of_fmap_2 fst) in Ho'. rewrite Hout in Ho'.
        unfold expected_outcomes in Ho'.
        apply list_elem_of_fmap in Ho' as (it & -> & Hit). simpl.
        apply (position_not_in_range video_urls (sorted sel) i idx it);
          [exact Hi | lia | exact Hit].
Qed.

(** ** The format selector of each tier *)

Ltac best_tier :=
  split; [vm_compute; reflexivity |];
  split; [split; intros _; [reflexivity | vm_compute; reflexivity] |];
  intros Hne; exfalso; now apply Hne.

Ltac strict_tier :=
  split; [vm_compute; reflexivity |];
  split; [split; intros Heq; [vm_compute in Heq; discriminate Heq | discriminate Heq] |];
  intros _; vm_compute; reflexivity.

(** C5, as amended. In video mode the selector of every tier starts with
    the filter for the tier's ceiling; only the tier [best] goes on with
    further alternatives and ends in the unfiltered [best], while the
    selectors of [1080p], [720p], [480p] and [360p] are the ceiling filter
    alone. *)
Theorem tier_format_ceiling_and_fallback self (tier : string) :
  tier ∈ video_tiers ->
  let fmt := format (build_ydl_opts self false tier) in
  head (format_alternatives fmt) =
    Some ("best[height<=" +:+ tier_ceiling tier +:+ "]") /\
  (falls_back_to_best fmt = true <-> tier = "best") /\
  (tier <> "best" ->
     format_alternatives fmt = ["best[height<=" +:+ tier_ceiling tier +:+ "]"]).
Proof.
  unfold video_tiers. intros Htier.
  repeat (apply elem_of_cons in Htier as [-> | Htier]);
    [best_tier | strict_tier | strict_tier | strict_tier | strict_tier
    | now apply elem_of_nil in Htier].
Qed.

End Batch.

(** ** The session across script runs *)

Section MainFacts.
Context `{Services}.

Lemma prepare_videos_lengths videos w (vdata : list VideoData) (vurls : list string) :
  length vdata = length vurls ->
  let res := prepare_videos videos w vdata vurls in
  length res.1.2 = length res.2.
Proof.
  revert w vdata vurls.
  induction videos as [|[i [video|]] videos IH]; intros w vdata vurls Hlen; simpl.
  - exact Hlen.
  - destruct (fetch_thumbnail (v_id video) w) as [w1 thumbnail].
    apply IH. rewrite !length_app. simpl. lia.
  - now apply IH.
Qed.

(** [main] keeps [video_data] and [video_urls] in step: both start empty
    and are only ever replaced together, by the two lists one pass over
    the playlist entries has built. *)
Lemma main_keeps_lists_in_step downloader inp raw w :
  length (default [] (raw_video_data raw)) = length (default [] (raw_video_urls raw)) ->
  let ss := mr_session (main downloader inp raw w) in
  length (video_data ss) = length (video_urls ss).
Proof.
  intros Hraw. unfold main.
  destruct (String.eqb (playlist_url inp) ""); [exact Hraw|].
  destruct (negb (is_valid_playlist_url downloader (playlist_url inp))); [exact Hraw|].
  destruct (ydl_playlist_info (playlist_url inp) w) as [w1 [info|]]; [|exact Hraw].
  destruct (default [] (pl_entries info)) as [|video videos] eqn:Hvideos; [exact Hraw|].
  pose proof (prepare_videos_lengths (enumerate (video :: videos)) w1 [] [] eq_refl) as Hp.
  destruct (prepare_videos (enumerate (video :: videos)) w1 [] [])
    as [[w2 new_data] new_urls].
  simpl in Hp.
  destruct (select_all inp); [exact Hp|].
  destruct (clear_all inp); [exact Hp|].
  destruct (submitted inp); [exact Hp|].
  simpl. case_decide; [exact Hp|].
  destruct (start_download inp); exact Hp.
Qed.

(** C9, as amended. A script run that resolves a playlist and stores its
    entries replaces [video_data] and [video_urls] and leaves the
    selection as it found it, unless Select All, Clear All or Update
    Selections was pressed in that run: an index selected under the old
    entry list stays selected under the new one. *)
Theorem replacing_playlist_keeps_selection
    downloader inp raw w (w1 : World) (info : PlaylistInfo)
    (videos : list (option Video)) :
  playlist_url inp <> "" ->
  is_valid_playlist_url downloader (playlist_url inp) = true ->
  ydl_playlist_info (playlist_url inp) w = (w1, Some info) ->
  pl_entries info = Some videos -> videos <> [] ->
  select_all inp = false -> clear_all inp = false -> submitted inp = false ->
  let ss := mr_session (main downloader inp raw w) in
  let prepared := prepare_videos (enumerate videos) w1 [] [] in
  video_data ss = prepared.1.2 /\ video_urls ss = prepared.2 /\
  selected_videos ss = default ∅ (raw_selected_videos raw).
Proof.
  intros Hurl Hvalid Hinfo Hentries Hvideos Hsa Hca Hsub. unfold main.
  apply String.eqb_neq in Hurl. rewrite Hurl, Hvalid. cbn [negb].
  destruct videos as [|video videos]; [contradiction|].
  rewrite Hinfo, Hentries. cbn [default from_option id].
  destruct (prepare_videos (enumerate (video :: videos)) w1 [] [])
    as [[w2 new_data] new_urls].
  rewrite Hsa, Hca, Hsub. cbv zeta.
  case_decide; [|destruct (start_download inp)]; simpl; auto.
Qed.

End MainFacts.

(** ** Runs in the concrete world *)

Lemma one_outcome_per_index_witness :
  exists b r,
    Fixture.run (Fixture.session ["a"; "gone"; "ghost"] {[0; 1; 2]}) = Returned (b, r) /\
    length (outcomes (console_content r)) = 3 /\
    (fst <$> outcomes (console_content r)) =
      [(1, "Title a"); (2, "Title gone"); (3, "Title ghost")].
Proof.
  destruct (@download_videos_one_outcome_per_index Fixture.services Fixture.downloader
              (Fixture.session ["a"; "gone"; "ghost"] {[0; 1; 2]})
              (Fixture.watch <$> ["a"; "gone"; "ghost"]) {[0; 1; 2]} false "1080p" [])
    as (b & r & Hrun & Hlen & Hkeys & _).
  - vm_compute. discriminate.
  - apply (bool_decide_unpack _). vm_compute. exact I.
  - reflexivity.
  - exists b, r. split; [exact Hrun|]. split; [exact Hlen | exact Hkeys].
Defined.

Lemma ascending_order_witness :
  exists b r,
    Fixture.run (Fixture.session ["a"; "b"; "c"; "d"; "e"; "f"] (list_to_set [5; 1; 3])) =
      Returned (b, r) /\
    attempts (console_content r) =
      [(1, Fixture.watch "b"); (2, Fixture.watch "d"); (3, Fixture.watch "f")] /\
    (fst <$> outcomes (console_content r)) =
      [(1, "Title b"); (2, "Title d"); (3, "Title f")] /\
    sorted (list_to_set [5; 1; 3]) = [1; 3; 5].
Proof.
  destruct (@download_videos_ascending_order Fixture.services Fixture.downloader
              (Fixture.session ["a"; "b"; "c"; "d"; "e"; "f"] (list_to_set [5; 1; 3]))
              (Fixture.watch <$> ["a"; "b"; "c"; "d"; "e"; "f"]) [5; 1; 3]
              false "1080p" [])
    as (b & r & Hrun & Hatt & Hout & _).
  - reflexivity.
  - exists b, r. split; [exact Hrun|]. split; [exact Hatt|]. split; [exact Hout|].
    vm_compute. reflexivity.
Defined.

Lemma classification_witness :
  exists b r body,
    Fixture.run (Fixture.session ["a"; "gone"; "c"] {[0; 1; 2]}) = Returned (b, r) /\
    succeeded body = 2 /\
    console_content r = body ++
      [CRule; CPartial 2 3; CFailedCount 1; CFilesSaved "downloads"].
Proof.
  destruct (@download_videos_classification Fixture.services Fixture.downloader
              (Fixture.session ["a"; "gone"; "c"] {[0; 1; 2]})
              (Fixture.watch <$> ["a"; "gone"; "c"]) {[0; 1; 2]} false "1080p" [])
    as (b & r & body & Hrun & _ & _ & _ & Hsc & _ & _ & Hpart).
  - discriminate.
  - vm_compute. discriminate.
  - reflexivity.
  - change (Fixture.run (Fixture.session ["a"; "gone"; "c"] {[0; 1; 2]}) = Returned (b, r))
      in Hrun.
    assert (Hr : r = match Fixture.run (Fixture.session ["a"; "gone"; "c"] {[0; 1; 2]}) with
                     | Returned (_, r') => r'
                     | Raised _ => r
                     end) by (rewrite Hrun; reflexivity).
    assert (Hn : succeeded body = 2).
    { rewrite <- Hsc, Hr. vm_compute. reflexivity. }
    exists b, r, body. split; [exact Hrun|]. split; [exact Hn|].
    rewrite Hn in Hpart. apply Hpart; vm_compute; lia.
Defined.

Lemma skips_stale_index_witness :
  exists b r i,
    Fixture.run (Fixture.session ["a"] {[0; 5]}) = Returned (b, r) /\
    sorted {[0; 5]} !! i = Some 5 /\
    (forall o, o ∈ outcomes (console_content r) -> o.1.1 <> i + 1) /\
    Forall (reports_total 2) (ui r) /\
    length (outcomes (console_content r)) + 1 = 2.
Proof.
  destruct (@download_videos_skips_stale_index Fixture.services Fixture.downloader
              (Fixture.session ["a"] {[0; 5]}) (Fixture.watch <$> ["a"]) {[0; 5]}
              false "1080p" [] 5)
    as (b & r & body & i & Hrun & Hi & Ho & _ & Hui & _ & Hcount & _).
  - discriminate.
  - apply (bool_decide_unpack _). vm_compute. exact I.
  - simpl. lia.
  - reflexivity.
  - exists b, r, i. split; [exact Hrun|]. split; [exact Hi|].
    split; [exact Ho|]. split; [exact Hui | exact Hcount].
Defined.

Lemma continues_after_exception_witness :
  exists b r,
    Fixture.run (Fixture.session ["a"; "gone"; "c"] {[0; 1; 2]}) = Returned (b, r) /\
    outcomes (console_content r) !! 1 = Some (2, "Title gone", OError) /\
    outcomes (console_content r) =
      [(1, "Title a", OSuccess); (2, "Title gone", OError); (3, "Title c", OSuccess)] /\
    attempts (console_content r) =
      [(1, Fixture.watch "a"); (2, Fixture.watch "gone"); (3, Fixture.watch "c")].
Proof.
  pose (ss := Fixture.session ["a"; "gone"; "c"] {[0; 1; 2]}).
  pose (r_mid :=
    match @download_loop Fixture.services ss (video_urls ss)
            (@build_ydl_opts Fixture.services Fixture.downloader false "1080p") 3 [(0, 0)]
            (@console_header Fixture.services Fixture.downloader false "1080p" 3
               (@start_run Fixture.services [])) with
    | Returned r => r
    | Raised _ => @start_run Fixture.services []
    end).
  destruct (@download_videos_continues_after_exception Fixture.services Fixture.downloader
              ss (video_urls ss) {[0; 1; 2]} false "1080p" []
              [(0, 0)] [(2, 2)] 1 1 r_mid (world r_mid) "Video unavailable")
    as (b & r & Hrun & Herr & _).
  - reflexivity.
  - vm_compute. reflexivity.
  - simpl. lia.
  - vm_compute. reflexivity.
  - vm_compute. reflexivity.
  - change (Fixture.run ss = Returned (b, r)) in Hrun.
    assert (Hr : r = match Fixture.run ss with
                     | Returned (_, r') => r'
                     | Raised _ => r
                     end) by (rewrite Hrun; reflexivity).
    exists b, r. split; [exact Hrun|]. split; [exact Herr|].
    rewrite Hr. vm_compute. split; reflexivity.
Defined.

Lemma success_iff_file_exists_witness :
  exists r' lines,
    @loop_body Fixture.services (Fixture.session ["ghost"; "a"] {[0; 1]})
      (Fixture.watch <$> ["ghost"; "a"])
      (@build_ydl_opts Fixture.services Fixture.downloader false "1080p") 2 0 0
      (@start_run Fixture.services []) = Returned r' /\
    console_content r' = lines /\
    success_count r' = 0 /\
    outcomes lines = [(1, "Title ghost", OFileNotCreated)].
Proof.
  destruct (@success_iff_file_exists Fixture.services
              (Fixture.session ["ghost"; "a"] {[0; 1]}) (Fixture.watch <$> ["ghost"; "a"])
              (@build_ydl_opts Fixture.services Fixture.downloader false "1080p") 2 0 0
              (@start_run Fixture.services []) (Fixture.watch "ghost")
              (Fixture.video 0 "ghost"))
    as (r' & lines & Hbody & Hc & _ & _ & _ & Hmissing).
  - reflexivity.
  - reflexivity.
  - destruct (Hmissing (Some (Fixture.watch "ghost")) (Fixture.watch "ghost" +:+ ".mp4"))
      as [Hcount Hout]; [reflexivity | reflexivity | reflexivity |].
    exists r', lines. split; [exact Hbody|]. split; [exact Hc|].
    split; [exact Hcount | exact Hout].
Defined.

Lemma tier_format_witness :
  head (format_alternatives
          (format (@build_ydl_opts Fixture.services Fixture.downloader false "720p"))) =
    Some "best[height<=720]" /\
  format_alternatives
    (format (@build_ydl_opts Fixture.services Fixture.downloader false "720p")) =
    ["best[height<=720]"].
Proof.
  destruct (@tier_format_ceiling_and_fallback Fixture.services Fixture.downloader "720p")
    as (Hhead & _ & Hstrict).
  - apply (bool_decide_unpack _). vm_compute. exact I.
  - split; [exact Hhead | apply Hstrict; discriminate].
Defined.

(** C5 as stated fails: the selector of the tier [720p] is the single
    alternative [best[height<=720]], with no fallback to [best]. *)
Lemma tier_720p_has_no_fallback :
  "720p" ∈ video_tiers /\
  format (@build_ydl_opts Fixture.services Fixture.downloader false "720p") =
    "best[height<=720]" /\
  falls_back_to_best
    (format (@build_ydl_opts Fixture.services Fixture.downloader false "720p")) = false.
Proof.
  split; [apply (bool_decide_unpack _); vm_compute; exact I|].
  split; vm_compute; reflexivity.
Qed.

(** C8 as stated fails: index 5 is not below the one URL there is, and yet
    the batch runs, downloads item 0 and writes its file. *)
Lemma stale_index_does_not_stop_the_batch :
  5 ∈ ({[0; 5]} : gset nat) /\ ~ 5 < length (Fixture.watch <$> ["a"]) /\
  exists r,
    Fixture.run (Fixture.session ["a"] {[0; 5]}) = Returned (true, r) /\
    attempts (console_content r) = [(1, Fixture.watch "a")] /\
    outcomes (console_content r) = [(1, "Title a", OSuccess)] /\
    world r = [(Fixture.watch "a" +:+ ".mp4", 2048)].
Proof.
  split; [apply (bool_decide_unpack _); vm_compute; exact I|].
  split; [simpl; lia|].
  eexists. split; [vm_compute; reflexivity|].
  repeat split; vm_compute; reflexivity.
Qed.

Lemma stops_only_for_empty_selection_witness :
  exists b r,
    Fixture.run (Fixture.session ["a"; "b"] {[1; 5]}) = Returned (b, r) /\
    (1, Fixture.watch "b") ∈ attempts (console_content r) /\
    (forall a, a ∈ attempts (console_content r) -> a.1 <> 2).
Proof.
  destruct (@download_videos_stops_only_for_empty_selection Fixture.services
              Fixture.downloader (Fixture.session ["a"; "b"] {[1; 5]})
              (Fixture.watch <$> ["a"; "b"]) {[1; 5]} false "1080p" [])
    as [_ Hruns].
  destruct Hruns as (b & r & Hrun & Hin & Hout).
  - discriminate.
  - vm_compute. discriminate.
  - reflexivity.
  - exists b, r. split; [exact Hrun|]. split.
    + apply (Hin 0 1); [vm_compute; reflexivity | simpl; lia].
    + apply (Hout 1 5); [vm_compute; reflexivity | simpl; lia].
Defined.

(** C9 as stated fails: three videos were selected, a playlist with a
    single video is resolved and stored, and the three indices are still
    selected. *)
Lemma selection_survives_new_playlist :
  let before := Fixture.session ["a"; "b"; "c"] {[0; 1; 2]} in
  let after :=
    mr_session (@main Fixture.services Fixture.downloader
                  (Fixture.inputs "https://www.youtube.com/playlist?list=PL1")
                  (Fixture.raw before) []) in
  video_urls after = [Fixture.watch "z"] /\
  selected_videos after = {[0; 1; 2]} /\
  selected_videos after <> ∅.
Proof.
  split; [vm_compute; reflexivity|].
  split; [vm_compute; reflexivity|].
  vm_compute. discriminate.
Qed.

Lemma replacing_playlist_witness :
  let before := Fixture.session ["a"; "b"; "c"] {[0; 1; 2]} in
  let after :=
    mr_session (@main Fixture.services Fixture.downloader
                  (Fixture.inputs "https://www.youtube.com/playlist?list=PL1")
                  (Fixture.raw before) []) in
  video_urls after = [Fixture.watch "z"] /\ selected_videos after = {[0; 1; 2]}.
Proof.
  destruct (@replacing_playlist_keeps_selection Fixture.services Fixture.downloader
              (Fixture.inputs "https://www.youtube.com/playlist?list=PL1")
              (Fixture.raw (Fixture.session ["a"; "b"; "c"] {[0; 1; 2]})) [] []
              {| pl_title := Some "Mix"; pl_playlist_count := Some 1;
                 pl_uploader := Some "Channel"; pl_entries := Some [Fixture.entry "z"] |}
              [Fixture.entry "z"])
    as (_ & Hurls & Hsel).
  - discriminate.
  - vm_compute. reflexivity.
  - reflexivity.
  - reflexivity.
  - discriminate.
  - reflexivity.
  - reflexivity.
  - reflexivity.
  - split; [exact Hurls | exact Hsel].
Defined.

(** C10 as stated fails when the URL list is empty: index 0 is selected and
    not below [len(video_urls) = 0], but nothing is passed over in silence
    and nothing is classified; the call shows an error and returns. *)
Lemma empty_url_list_reports_an_error :
  0 ∈ ({[0]} : gset nat) /\ length (Fixture.watch <$> []) <= 0 /\
  exists r,
    Fixture.run (Fixture.session [] {[0]}) = Returned (false, r) /\
    ui r = [UiError "No videos selected for download"] /\
    console_content r = [].
Proof.
  split; [apply (bool_decide_unpack _); vm_compute; exact I|].
  split; [simpl; lia|].
  eexists. split; [vm_compute; reflexivity|]. split; reflexivity.
Qed.

(** The empty URL list above is one [main] can pass on: a playlist whose
    only entry is [None] is stored as two empty lists, the selection made
    under the previous playlist is still there, and Start Download calls
    [download_videos] with them. *)
Lemma main_passes_empty_url_list :
  mr_download
    (@main Fixture.services Fixture.downloader
       {| playlist_url := "https://www.youtube.com/playlist?list=PL0";
          download_type := "Video"; quality_choice := "1080p";
          select_all := false; clear_all := false; submitted := false;
          start_download := true |}
       (Fixture.raw (Fixture.session ["a"] {[0]})) []) =
  Some (Fixture.run (Fixture.session [] {[0]})).
Proof. vm_compute. reflexivity. Qed.

(** * Further properties of the code *)

(** ** The widget calls and the world of a batch *)

Section Traces.
Context `{Services}.

(** What one pass through the loop body does for an index that passes the
    guard: the widget calls it makes, the console it leaves and the world. *)
Lemma loop_body_trace session video_urls opts total i idx r :
  idx < length video_urls -> idx < length (video_data session) ->
  exists r' lines status,
    loop_body session video_urls opts total i idx r = Returned r' /\
    console_content r' =
      console_content r ++
      CStarting (i + 1) total (title_of session idx) ::
      CConnecting (i + 1) total (url_of video_urls idx) :: lines /\
    ui r' =
      ui r ++
      [UiOverall (i + 1) total (str_take 60 (title_of session idx));
       UiProgress i total;
       UiConsole (console_content r ++ [CStarting (i + 1) total (title_of session idx)]);
       UiConsole (console_content r ++
                  [CStarting (i + 1) total (title_of session idx);
                   CConnecting (i + 1) total (url_of video_urls idx)]);
       UiStatus status; UiProgress (i + 1) total; UiSleep 1] /\
    world r' = world_after_item session video_urls opts (world r) (i, idx).
Proof.
  intros Hu Hd.
  apply lookup_lt_is_Some_2 in Hu as [url Hu].
  apply lookup_lt_is_Some_2 in Hd as [vd Hd].
  pose proof (lookup_lt_Some _ _ _ Hu) as Hlt.
  unfold loop_body, world_after_item, title_of, url_of.
  case_decide; [|contradiction]. simpl. rewrite !Hu, !Hd. simpl.
  unfold try_download. simpl.
  destruct (ydl_extract_info _ url (world r)) as [w [info|msg]]; simpl.
  - destruct (ydl_prepare_filename _ info w) as [filename|msg]; simpl.
    + unfold path_exists, getsize.
      destruct (fs_size w filename) as [n|]; simpl.
      * eexists _, [_], _. split; [reflexivity|]. simpl.
        rewrite <- !app_assoc. simpl. repeat split; reflexivity.
      * eexists _, [_], _. split; [reflexivity|]. simpl.
        rewrite <- !app_assoc. simpl. repeat split; reflexivity.
    + eexists _, [_; _], _. split; [reflexivity|]. simpl.
      rewrite <- !app_assoc. simpl. repeat split; reflexivity.
  - eexists _, [_; _], _. split; [reflexivity|]. simpl.
    rewrite <- !app_assoc. simpl. repeat split; reflexivity.
Qed.

(** The widget calls of the loop: progress fractions stay within bounds,
    one second is slept per attempted item, every rendered console lies
    between the console before and the console after, and the world is the
    one the download calls have built up in order. *)
Lemma download_loop_trace session video_urls opts total items r :
  length video_urls <= length (video_data session) ->
  Forall (fun it => it.1 < total) items ->
  exists r' evs,
    download_loop session video_urls opts total items r = Returned r' /\
    ui r' = ui r ++ evs /\
    Forall progress_in_range evs /\
    slept evs = length (in_range video_urls items) /\
    Forall (fun c => console_content r `prefix_of` c /\ c `prefix_of` console_content r')
      (snapshots evs) /\
    console_content r `prefix_of` console_content r' /\
    world r' =
      foldl (world_after_item session video_urls opts) (world r)
        (in_range video_urls items).
Proof.
  intros Hlen Hpos. revert r.
  induction Hpos as [|[i idx] items Hi _ IH]; intros r; simpl in *.
  - exists r, []. rewrite app_nil_r. repeat split; auto; constructor.
  - destruct (decide (idx < length video_urls)) as [Hlt|Hge].
    + destruct (loop_body_trace session video_urls opts total i idx r)
        as (r1 & lines & status & -> & Hc1 & Hui1 & Hw1); [lia..|].
      destruct (IH r1) as (r2 & evs & -> & Hui2 & Hprog & Hslept & Hsnap & Hpre & Hw2).
      rewrite in_range_cons_lt by assumption. simpl.
      assert (Hpre1 : console_content r `prefix_of` console_content r1).
      { rewrite Hc1. now eexists. }
      eexists r2, (_ ++ evs). split; [reflexivity|].
      split; [rewrite Hui2, Hui1, <- app_assoc; reflexivity|].
      split.
      { apply Forall_app_2; [|assumption]. repeat (constructor; simpl; auto); lia. }
      split.
      { unfold slept in *. rewrite sum_list_with_app, Hslept. simpl. lia. }
      split.
      { unfold snapshots. rewrite omap_app. apply Forall_app_2.
        - simpl. repeat constructor.
          + now eexists.
          + etrans; [|exact Hpre]. rewrite Hc1. eexists. rewrite <- app_assoc. reflexivity.
          + now eexists.
          + etrans; [|exact Hpre]. rewrite Hc1. eexists.
            rewrite <- app_assoc. simpl. reflexivity.
        - eapply Forall_impl; [exact Hsnap|]. intros c [Hlo Hhi].
          split; [transitivity (console_content r1); assumption | assumption]. }
      split; [transitivity (console_content r1); assumption|].
      rewrite Hw2, Hw1. reflexivity.
    + rewrite loop_body_skip by assumption.
      destruct (IH r) as (r2 & evs & -> & Hrest).
      rewrite in_range_cons_ge by assumption. exists r2, evs. auto.
Qed.

Lemma final_summary_ui self total r :
  exists mid,
    ui (final_summary self total r) =
      ui r ++ [UiProgressInt 100; UiOverallClear] ++ mid ++
      [UiConsole (console_content (final_summary self total r))] /\
    (mid = [] \/ mid = [UiBalloons]) /\
    console_content r `prefix_of` console_content (final_summary self total r).
Proof.
  unfold final_summary. simpl.
  destruct (success_count r =? total); simpl.
  - exists [UiBalloons]. rewrite <- !app_assoc. simpl.
    repeat split; auto. now eexists.
  - destruct (0 <? success_count r); simpl; exists []; rewrite <- !app_assoc; simpl;
      (repeat split; auto; now eexists).
Qed.

Lemma enumerate_positions (l : list nat) :
  Forall (fun it : nat * nat => it.1 < length l) (enumerate l).
Proof.
  apply Forall_forall. intros [i x] Hin. simpl.
  apply elem_of_enumerate_from in Hin as [_ Hx].
  apply lookup_lt_Some in Hx. lia.
Qed.

Lemma length_in_range video_urls (n : nat) (l : list nat) :
  length (in_range video_urls (enumerate_from n l)) =
  length (filter (fun idx => idx < length video_urls) l).
Proof.
  revert n. induction l as [|idx l IH]; intros n; [reflexivity|]. simpl.
  rewrite filter_cons. destruct (decide (idx < length video_urls)) as [Hlt|Hge].
  - rewrite in_range_cons_lt by assumption. simpl. now rewrite IH.
  - rewrite in_range_cons_ge by assumption. apply IH.
Qed.

(** The widget calls and the world of a whole batch. *)
Lemma download_videos_trace self session video_urls (sel : gset nat)
    audio_only quality w :
  video_urls <> [] -> sel <> ∅ ->
  length video_urls <= length (video_data session) ->
  exists b r,
    download_videos self session video_urls sel audio_only quality w = Returned (b, r) /\
    Forall progress_in_range (ui r) /\
    slept (ui r) = length (in_range video_urls (enumerate (sorted sel))) /\
    Forall (fun c => c `prefix_of` console_content r) (snapshots (ui r)) /\
    last (ui r) = Some (UiConsole (console_content r)) /\
    world r =
      foldl (world_after_item session video_urls (build_ydl_opts self audio_only quality))
        w (in_range video_urls (enumerate (sorted sel))).
Proof.
  intros Hu Hs Hlen.
  destruct (download_videos_runs self session video_urls sel audio_only quality w
              Hu Hs Hlen) as (r1 & Hloop & _ & Hrun).
  destruct (download_loop_trace session video_urls
              (build_ydl_opts self audio_only quality) (size sel)
              (enumerate (sorted sel))
              (console_header self audio_only quality (size sel) (start_run w)) Hlen)
    as (r1' & evs & Hloop' & Hui & Hprog & Hslept & Hsnap & Hpre & Hw).
  { rewrite <- length_sorted. apply enumerate_positions. }
  rewrite Hloop in Hloop'. injection Hloop' as <-.
  destruct (final_summary_ui self (size sel) r1) as (mid & Huif & Hmid & Hpref).
  destruct (final_summary_spec self (size sel) r1) as (Hwf & _).
  exists (0 <? success_count r1), (final_summary self (size sel) r1).
  split; [exact Hrun|].
  set (r0 := console_header self audio_only quality (size sel) (start_run w)) in *.
  set (rf := final_summary self (size sel) r1) in *.
  assert (Hhead : ui r0 = [UiSubheader "Download Console"; UiProgressInt 0;
                           UiConsole (console_content r0)]).
  { subst r0. destruct audio_only; reflexivity. }
  assert (Hw0 : world r0 = w) by (subst r0; destruct audio_only; reflexivity).
  assert (Hmid0 : snapshots mid = [] /\ slept mid = 0 /\ Forall progress_in_range mid).
  { destruct Hmid as [-> | ->]; repeat split; repeat constructor. }
  destruct Hmid0 as (Hmid1 & Hmid2 & Hmid3).
  rewrite Huif, Hui, Hhead, Hwf, Hw, Hw0.
  split.
  { repeat (apply Forall_app_2); try assumption; repeat (constructor; simpl; auto). }
  split.
  { unfold slept in *. rewrite !sum_list_with_app, Hslept, Hmid2. simpl. lia. }
  split.
  { unfold snapshots in *. rewrite !omap_app, Hmid1.
    repeat (apply Forall_app_2).
    - constructor; [|constructor]. transitivity (console_content r1); assumption.
    - eapply Forall_impl; [exact Hsnap|]. intros c [_ Hhi].
      transitivity (console_content r1); assumption.
    - constructor.
    - constructor.
    - constructor; [reflexivity | constructor]. }
  split; [|reflexivity].
  rewrite !app_assoc. apply last_snoc.
Qed.

(** X1. The value handed to the progress bar is always acceptable: every
    fraction [i / total_count] and [(i + 1) / total_count] lies between 0
    and 1, with a non-zero denominator, and the integer values are 0 and
    100. *)
Theorem download_videos_progress_in_range
    self session video_urls (sel : gset nat) audio_only quality w :
  length (video_data session) = length video_urls ->
  exists b r,
    download_videos self session video_urls sel audio_only quality w = Returned (b, r) /\
    Forall progress_in_range (ui r).
Proof.
  intros Hlen.
  destruct (decide (video_urls = [] \/ sel = ∅)) as [Hearly|Hrun].
  - destruct (download_videos_early self session video_urls sel audio_only quality w
                Hearly) as (msg & ->).
    eexists _, _. split; [reflexivity|]. simpl. repeat constructor.
  - destruct (download_videos_trace self session video_urls sel audio_only quality w)
      as (b & r & Hres & Hprog & _); [tauto | tauto | lia |].
    exists b, r. auto.
Qed.

(** X2. The console is append-only: every console the user is shown during
    a batch is a prefix of the final console, and the last thing a finished
    batch does is to show the complete console. *)
Theorem download_videos_console_append_only
    self session video_urls (sel : gset nat) audio_only quality w :
  video_urls <> [] -> sel <> ∅ ->
  length (video_data session) = length video_urls ->
  exists b r,
    download_videos self session video_urls sel audio_only quality w = Returned (b, r) /\
    Forall (fun c => c `prefix_of` console_content r) (snapshots (ui r)) /\
    last (ui r) = Some (UiConsole (console_content r)).
Proof.
  intros Hu Hs Hlen.
  destruct (download_videos_trace self session video_urls sel audio_only quality w)
    as (b & r & Hres & _ & _ & Hsnap & Hlast & _); [assumption | assumption | lia |].
  exists b, r. auto.
Qed.

(** X3. The pacing delay is one second per attempted item: a finished batch
    has slept exactly as many seconds as there are selected indices below
    [len(video_urls)], and nothing for the indices it passed over. *)
Theorem download_videos_sleeps_once_per_item
    self session video_urls (sel : gset nat) audio_only quality w :
  video_urls <> [] -> sel <> ∅ ->
  length (video_data session) = length video_urls ->
  exists b r,
    download_videos self session video_urls sel audio_only quality w = Returned (b, r) /\
    slept (ui r) = length (filter (fun idx => idx < length video_urls) (sorted sel)) /\
    slept (ui r) <= size sel.
Proof.
  intros Hu Hs Hlen.
  destruct (download_videos_trace self session video_urls sel audio_only quality w)
    as (b & r & Hres & _ & Hslept & _); [assumption | assumption | lia |].
  exists b, r. split; [exact Hres|].
  unfold enumerate in Hslept. rewrite length_in_range in Hslept.
  split; [exact Hslept|].
  rewrite Hslept, <- length_sorted. apply length_filter.
Qed.

(** X4. The downloads happen one after the other, in ascending index order,
    each in the world the previous one left: the world after the batch is
    the world the download calls of the attempted items build up in turn,
    and nothing else in [download_videos] changes it. *)
Theorem download_videos_world_is_sequential
    self session video_urls (sel : gset nat) audio_only quality w :
  video_urls <> [] -> sel <> ∅ ->
  length (video_data session) = length video_urls ->
  exists b r,
    download_videos self session video_urls sel audio_only quality w = Returned (b, r) /\
    world r =
      foldl (world_after_item session video_urls (build_ydl_opts self audio_only quality))
        w (in_range video_urls (enumerate (sorted sel))).
Proof.
  intros Hu Hs Hlen.
  destruct (download_videos_trace self session video_urls sel audio_only quality w)
    as (b & r & Hres & _ & _ & _ & _ & Hw); [assumption | assumption | lia |].
  exists b, r. auto.
Qed.

End Traces.

(** ** What [download_videos] returns, and what escapes it *)

Section Returns.
Context `{Services}.

(** X5. [download_videos] returns [True] exactly when at least one success
    record was written; the counter it keeps is the number of those
    records. A batch that stops at one of the two guards returns [False]. *)
Theorem download_videos_returns_whether_any_succeeded
    self session video_urls (sel : gset nat) audio_only quality w :
  length (video_data session) = length video_urls ->
  exists b r,
    download_videos self session video_urls sel audio_only quality w = Returned (b, r) /\
    (b = true <-> 0 < succeeded (console_content r)) /\
    success_count r = succeeded (console_content r) /\
    (video_urls = [] \/ sel = ∅ -> b = false).
Proof.
  intros Hlen.
  destruct (decide (video_urls = [] \/ sel = ∅)) as [Hearly|Hrun].
  - destruct (download_videos_early self session video_urls sel audio_only quality w
                Hearly) as (msg & ->).
    eexists _, _. split; [reflexivity|]. simpl. unfold succeeded. simpl.
    split; [split; [discriminate | lia]|]. split; reflexivity.
  - destruct (download_videos_observed self session video_urls sel audio_only quality w)
      as (r & body & tail & Hres & Hc & Hot & _ & _ & _ & Hsc & _);
      [tauto | tauto | lia |].
    assert (Htail : succeeded tail = 0) by (unfold succeeded; now rewrite Hot).
    exists (0 <? succeeded body), r. split; [exact Hres|].
    rewrite Hc, succeeded_app, Htail, Nat.add_0_r.
    split; [apply Nat.ltb_lt|]. split; [exact Hsc | tauto].
Qed.

Lemma loop_body_index_error session video_urls opts total i idx r :
  idx < length video_urls -> length (video_data session) <= idx ->
  loop_body session video_urls opts total i idx r = Raised "list index out of range".
Proof.
  intros Hu Hd. unfold loop_body. case_decide; [|contradiction].
  apply lookup_lt_is_Some_2 in Hu as [url ->].
  now rewrite (lookup_ge_None_2 (video_data session) idx Hd).
Qed.

Lemma loop_body_raises_only_index_error session video_urls opts total i idx r msg :
  loop_body session video_urls opts total i idx r = Raised msg ->
  msg = "list index out of range".
Proof.
  unfold loop_body. case_decide; [|discriminate].
  destruct (video_urls !! idx); [|now intros [= <-]].
  destruct (video_data session !! idx); [discriminate | now intros [= <-]].
Qed.

Lemma download_loop_index_error session video_urls opts total items r :
  Exists (fun it => it.2 < length video_urls /\ length (video_data session) <= it.2) items ->
  download_loop session video_urls opts total items r = Raised "list index out of range".
Proof.
  intros Hbad. revert r.
  induction Hbad as [[i idx] items [Hu Hd]|[i idx] items _ IH]; intros r; simpl.
  - now rewrite loop_body_index_error.
  - destruct (loop_body session video_urls opts total i idx r) as [r'|msg] eqn:Hbody.
    + apply IH.
    + now apply loop_body_raises_only_index_error in Hbody as ->.
Qed.

(** X6. The title is read from [st.session_state.video_data] outside the
    [try]: if a selected index has a URL but no entry in [video_data], the
    [IndexError] is not caught and leaves [download_videos]; no summary is
    written and nothing is returned. *)
Theorem download_videos_lets_index_error_out
    self session video_urls (sel : gset nat) audio_only quality w (idx : nat) :
  idx ∈ sel -> idx < length video_urls -> length (video_data session) <= idx ->
  download_videos self session video_urls sel audio_only quality w =
    Raised "list index out of range".
Proof.
  intros Hin Hu Hd. unfold download_videos.
  destruct video_urls as [|u us]; [simpl in Hu; lia|].
  assert (Hs : sel <> ∅) by (intros ->; now apply not_elem_of_empty in Hin).
  apply size_non_empty in Hs.
  destruct (Nat.eqb_spec (size sel) 0) as [Hz|_]; [contradiction|].
  rewrite download_loop_index_error; [reflexivity|].
  apply Exists_exists. apply elem_of_sorted, list_elem_of_lookup in Hin as [i Hi].
  exists (i, idx). split; [|split; [exact Hu | exact Hd]].
  apply elem_of_enumerate_from. split; [lia|]. now rewrite Nat.sub_0_r.
Qed.

(** ** The options of a batch *)

(** X7. In audio mode the quality tier plays no part: the options are the
    same for every tier, the selector ends in the unfiltered [best], and
    the MP3 post-processor is there exactly when FFmpeg is. *)
Theorem audio_options_ignore_quality self (q1 q2 : string) :
  build_ydl_opts self true q1 = build_ydl_opts self true q2 /\
  falls_back_to_best (format (build_ydl_opts self true q1)) = true /\
  (postprocessors (build_ydl_opts self true q1) = [] <-> ffmpeg_available self = false) /\
  (forall pp, pp ∈ postprocessors (build_ydl_opts self true q1) ->
     key pp = "FFmpegExtractAudio" /\ preferredcodec pp = "mp3").
Proof.
  unfold build_ydl_opts. destruct (ffmpeg_available self); simpl.
  - split; [reflexivity|]. split; [vm_compute; reflexivity|].
    split; [split; discriminate|].
    intros pp ->%list_elem_of_singleton. auto.
  - split; [reflexivity|]. split; [vm_compute; reflexivity|].
    split; [tauto|]. intros pp Hpp. now apply elem_of_nil in Hpp.
Qed.

Lemma quality_map_unknown (quality : string) :
  quality ∉ video_tiers -> quality_map !! quality = None.
Proof.
  unfold video_tiers, quality_map. intros Hq.
  repeat (apply not_elem_of_cons in Hq as [? Hq]).
  rewrite !lookup_insert_ne by congruence. apply lookup_empty.
Qed.

(** X8. A quality that is none of the five tiers (the keys are compared as
    they are written) gets the default selector, which prefers 720p and
    falls back to the best available; video mode never adds a
    post-processor. *)
Theorem unknown_tier_uses_default self (quality : string) :
  quality ∉ video_tiers ->
  format (build_ydl_opts self false quality) = "best[height<=720]/best" /\
  falls_back_to_best (format (build_ydl_opts self false quality)) = true /\
  postprocessors (build_ydl_opts self false quality) = [].
Proof.
  intros Hq. unfold build_ydl_opts. simpl.
  rewrite (quality_map_unknown quality Hq). simpl.
  split; [reflexivity|]. split; [vm_compute; reflexivity | reflexivity].
Qed.

End Returns.

Lemma lets_index_error_out_witness :
  @download_videos Fixture.services Fixture.downloader
    (Fixture.session ["a"] {[0; 1]}) (Fixture.watch <$> ["a"; "b"]) {[0; 1]}
    false "1080p" [] = Raised "list index out of range".
Proof.
  apply (@download_videos_lets_index_error_out Fixture.services Fixture.downloader
           (Fixture.session ["a"] {[0; 1]}) (Fixture.watch <$> ["a"; "b"]) {[0; 1]}
           false "1080p" [] 1).
  - apply (bool_decide_unpack _). vm_compute. exact I.
  - simpl. lia.
  - simpl. lia.
Defined.

Lemma returns_whether_any_succeeded_witness :
  exists b r,
    Fixture.run (Fixture.session ["gone"; "ghost"] {[0; 1]}) = Returned (b, r) /\
    (b = true <-> 0 < succeeded (console_content r)) /\
    success_count r = succeeded (console_content r).
Proof.
  destruct (@download_videos_returns_whether_any_succeeded Fixture.services
              Fixture.downloader (Fixture.session ["gone"; "ghost"] {[0; 1]})
              (Fixture.watch <$> ["gone"; "ghost"]) {[0; 1]} false "1080p" [])
    as (b & r & Hrun & Hb & Hsc & _).
  - reflexivity.
  - exists b, r. split; [exact Hrun|]. split; [exact Hb | exact Hsc].
Defined.

Lemma unknown_tier_witness :
  format (@build_ydl_opts Fixture.services Fixture.downloader false "1080P") =
    "best[height<=720]/best".
Proof.
  destruct (@unknown_tier_uses_default Fixture.services Fixture.downloader "1080P")
    as (Hfmt & _).
  - apply (bool_decide_unpack _). vm_compute. exact I.
  - exact Hfmt.
Defined.

(** ** Script runs of [main] *)

Section Runs.
Context `{Services}.

(** The two lists one pass over the entries builds, entry by entry. *)
Lemma prepare_videos_spec (n : nat) (videos : list (option Video)) (w : World)
    (vdata : list VideoData) (vurls : list string) :
  let res := prepare_videos (enumerate_from n videos) w vdata vurls in
  res.2 = vurls ++ (watch_url <$> kept_entries videos) /\
  (vd_url <$> res.1.2) = (vd_url <$> vdata) ++ (watch_url <$> kept_entries videos) /\
  (vd_id <$> res.1.2) = (vd_id <$> vdata) ++ (v_id <$> kept_entries videos) /\
  (vd_title <$> res.1.2) =
    (vd_title <$> vdata) ++
    ((fun v => default "Unknown Title" (v_title v)) <$> kept_entries videos) /\
  (vd_index <$> res.1.2) =
    (vd_index <$> vdata) ++
    (fst <$> filter (fun it => is_Some it.2) (enumerate_from n videos)).
Proof.
  revert n w vdata vurls.
  induction videos as [|[video|] videos IH]; intros n w vdata vurls; simpl.
  - rewrite !app_nil_r. auto.
  - destruct (fetch_thumbnail (v_id video) w) as [w1 thumbnail].
    destruct (IH (S n) w1
                (vdata ++ [{| vd_index := n; vd_id := v_id video;
                              vd_title := default "Unknown Title" (v_title video);
                              vd_duration := duration_str (v_duration video);
                              vd_url := "https://www.youtube.com/watch?v=" +:+ v_id video;
                              vd_thumbnail := thumbnail |}])
                (vurls ++ ["https://www.youtube.com/watch?v=" +:+ v_id video]))
      as (Hu & Hd & Hi & Ht & Hx).
    rewrite Hu, Hd, Hi, Ht, Hx, !fmap_app, <- !app_assoc.
    repeat split; reflexivity.
  - destruct (IH (S n) w vdata vurls) as (Hu & Hd & Hi & Ht & Hx).
    rewrite Hu, Hd, Hi, Ht, Hx.
    repeat split; reflexivity.
Qed.

(** Where a script run stands once the playlist is stored. *)
Lemma main_resolved downloader inp raw w w1 videos :
  resolves downloader inp w w1 videos ->
  main downloader inp raw w =
    let prepared := prepare_videos (enumerate videos) w1 [] [] in
    let ss := store_videos prepared.1.2 prepared.2 (init_session_state raw) in
    if select_all inp then
      stop (set_selection (range_set (length prepared.1.2)) true false ss) prepared.1.1 true
    else if clear_all inp then stop (set_selection ∅ false true ss) prepared.1.1 true
    else
      let ss := set_selection (selected_videos ss) false false ss in
      if submitted inp then
        stop (set_selection (new_selections ss) false false ss) prepared.1.1 true
      else if decide (selected_videos ss = ∅) then stop ss prepared.1.1 false
      else if start_download inp then
        {| mr_session := ss; mr_world := prepared.1.1; mr_rerun := false;
           mr_download :=
             Some (download_videos downloader ss (video_urls ss) (selected_videos ss)
                     (String.eqb (download_type inp) "Audio Only")
                     (if String.eqb (download_type inp) "Video"
                      then quality_choice inp else "best")
                     prepared.1.1) |}
      else stop ss prepared.1.1 false.
Proof.
  intros (Hurl & Hvalid & info & Hinfo & Hentries & Hvideos). unfold main.
  apply String.eqb_neq in Hurl. rewrite Hurl, Hvalid. cbn [negb].
  destruct videos as [|video videos]; [contradiction|].
  rewrite Hinfo, Hentries. cbn [default from_option id].
  destruct (prepare_videos (enumerate (video :: videos)) w1 [] [])
    as [[w2 new_data] new_urls].
  reflexivity.
Qed.

Lemma elem_of_range_set (n i : nat) : i ∈ range_set n <-> i < n.
Proof.
  unfold range_set. rewrite elem_of_list_to_set, elem_of_seq. lia.
Qed.

Lemma size_range_set (n : nat) : size (range_set n) = n.
Proof.
  unfold range_set. rewrite size_list_to_set by apply NoDup_seq. apply length_seq.
Qed.

(** X10. Select All selects every position of the list just stored and
    nothing else: the selection has as many members as there are URLs, all
    of them below [len(video_urls)]. The run ends in a rerun, without a
    download. *)
Theorem main_select_all downloader inp raw w w1 videos :
  resolves downloader inp w w1 videos -> select_all inp = true ->
  let res := main downloader inp raw w in
  (forall idx, idx ∈ selected_videos (mr_session res) <->
               idx < length (video_urls (mr_session res))) /\
  size (selected_videos (mr_session res)) = length (video_urls (mr_session res)) /\
  select_all_clicked (mr_session res) = true /\
  mr_rerun res = true /\ mr_download res = None.
Proof.
  intros Hres Hsa. simpl. rewrite (main_resolved _ _ _ _ _ _ Hres), Hsa.
  pose proof (prepare_videos_lengths (enumerate videos) w1 [] [] eq_refl) as Hlen.
  simpl in *. rewrite <- Hlen.
  split; [intros idx; apply elem_of_range_set|].
  split; [apply size_range_set | auto].
Qed.

(** X11. Clear All (when Select All is not pressed) empties the selection,
    whatever it was, and ends the run in a rerun without a download. *)
Theorem main_clear_all downloader inp raw w w1 videos :
  resolves downloader inp w w1 videos ->
  select_all inp = false -> clear_all inp = true ->
  let res := main downloader inp raw w in
  selected_videos (mr_session res) = ∅ /\
  clear_all_clicked (mr_session res) = true /\
  select_all_clicked (mr_session res) = false /\
  mr_rerun res = true /\ mr_download res = None.
Proof.
  intros Hres Hsa Hca. simpl. rewrite (main_resolved _ _ _ _ _ _ Hres), Hsa, Hca.
  simpl. auto.
Qed.

(** X12. Update Selections replaces the selection by the checked boxes of
    the list just stored: an index is selected afterwards exactly if it is a
    position of that list and its box is checked. Indices selected before
    are dropped unless their box is checked, those beyond the list in any
    case. *)
Theorem main_update_selections downloader inp raw w w1 videos :
  resolves downloader inp w w1 videos ->
  select_all inp = false -> clear_all inp = false -> submitted inp = true ->
  let res := main downloader inp raw w in
  (forall idx, idx ∈ selected_videos (mr_session res) <->
               idx < length (video_urls (mr_session res)) /\
               raw_video_checkbox raw !! idx = Some true) /\
  mr_rerun res = true /\ mr_download res = None.
Proof.
  intros Hres Hsa Hca Hsub. simpl.
  rewrite (main_resolved _ _ _ _ _ _ Hres), Hsa, Hca. cbv zeta. rewrite Hsub.
  pose proof (prepare_videos_lengths (enumerate videos) w1 [] [] eq_refl) as Hlen.
  simpl in *. rewrite <- Hlen. split; [|auto].
  intros idx. unfold new_selections. simpl.
  rewrite elem_of_list_to_set, list_elem_of_filter, elem_of_seq. split.
  - intros [Hbox Hpos]. split; [lia | exact Hbox].
  - intros [Hpos Hbox]. split; [exact Hbox | lia].
Qed.


(** [main] keeps the URL of every stored video next to its data. *)
Lemma main_keeps_urls_aligned downloader inp raw w :
  (vd_url <$> default [] (raw_video_data raw)) = default [] (raw_video_urls raw) ->
  let ss := mr_session (main downloader inp raw w) in
  (vd_url <$> video_data ss) = video_urls ss.
Proof.
  intros Hraw. unfold main.
  destruct (String.eqb (playlist_url inp) ""); [exact Hraw|].
  destruct (negb (is_valid_playlist_url downloader (playlist_url inp))); [exact Hraw|].
  destruct (ydl_playlist_info (playlist_url inp) w) as [w1 [info|]]; [|exact Hraw].
  destruct (default [] (pl_entries info)) as [|video videos] eqn:Hvideos; [exact Hraw|].
  assert (Hp : (vd_url <$> (prepare_videos (enumerate (video :: videos)) w1 [] []).1.2) =
               (prepare_videos (enumerate (video :: videos)) w1 [] []).2).
  { destruct (prepare_videos_spec 0 (video :: videos) w1 [] []) as (Hu & Hd & _).
    unfold enumerate. rewrite Hu. exact Hd. }
  destruct (prepare_videos (enumerate (video :: videos)) w1 [] [])
    as [[w2 new_data] new_urls].
  simpl in Hp.
  destruct (select_all inp); [exact Hp|].
  destruct (clear_all inp); [exact Hp|].
  destruct (submitted inp); [exact Hp|].
  simpl. case_decide; [exact Hp|].
  destruct (start_download inp); exact Hp.
Qed.

(** X16. In every session a browser tab can reach, [video_data] and
    [video_urls] describe the same videos: they have the same length and
    the element at each position of [video_data] carries the URL at that
    position of [video_urls]. *)
Theorem reachable_lists_aligned downloader (ss : SessionState) :
  reachable downloader ss ->
  (vd_url <$> video_data ss) = video_urls ss /\
  length (video_data ss) = length (video_urls ss).
Proof.
  intros Hreach.
  assert (Hurls : (vd_url <$> video_data ss) = video_urls ss).
  { induction Hreach as [inp w|ss inp checkboxes w _ IH].
    - now apply main_keeps_urls_aligned.
    - apply main_keeps_urls_aligned. exact IH. }
  split; [exact Hurls|]. rewrite <- Hurls. now rewrite length_fmap.
Qed.

End Runs.

(** ** More on the validator *)

(** X17. The pattern is matched at the start of the string and not up to
    its end: whatever follows an accepted URL, the result is accepted too. *)
Theorem valid_url_ignores_what_follows self (url suffix : string) :
  is_valid_playlist_url self url = true ->
  is_valid_playlist_url self (url +:+ suffix) = true.
Proof.
  intros (scheme & www & host & id & rest & Hs & Hw & Hh & Hne & Hid & ->)
    %is_valid_playlist_url_spec.
  apply is_valid_playlist_url_spec.
  exists scheme, www, host, id, (rest +:+ suffix).
  repeat split; auto. now rewrite !string_app_assoc.
Qed.

(** X18. [list=] must be followed by at least one identifier character: a
    URL that ends right after [list=], or goes on with any other character
    there, is rejected, whatever its scheme, [www.] and host. *)
Theorem list_parameter_needs_an_identifier self (scheme www host rest : string) :
  scheme ∈ schemes -> www ∈ www_prefixes -> host ∈ accepted_hosts ->
  (forall c rest', rest = String c rest' -> id_char c = false) ->
  is_valid_playlist_url self
    (scheme +:+ www +:+ host +:+ "/playlist?list=" +:+ rest) = false.
Proof.
  unfold schemes, www_prefixes, accepted_hosts, documented_hosts. simpl.
  intros Hs Hw Hh Hrest.
  unfold is_valid_playlist_url, Re.re_match.
  rewrite !list_ascii_of_string_app.
  assert (Hplus : forall k, Re.plus_set
            [Re.Range "a" "z"; Re.Range "A" "Z"; Re.Range "0" "9";
             Re.Single "_"; Re.Single "-"] (list_ascii_of_string rest) k = false).
  { intros k. destruct rest as [|c rest']; [reflexivity|].
    cbn [list_ascii_of_string Re.plus_set].
    change (id_char c && (Re.plus_set
              [Re.Range "a" "z"; Re.Range "A" "Z"; Re.Range "0" "9";
               Re.Single "_"; Re.Single "-"] (list_ascii_of_string rest') k
              || k (list_ascii_of_string rest')) = false).
    now rewrite (Hrest c rest' eq_refl). }
  repeat (apply elem_of_cons in Hs as [-> | Hs]);
    [| | | now apply elem_of_nil in Hs];
    (repeat (apply elem_of_cons in Hw as [-> | Hw]);
       [| | now apply elem_of_nil in Hw]);
    (repeat (apply elem_of_cons in Hh as [-> | Hh]);
       [| | | now apply elem_of_nil in Hh]);
    cbn -[Re.plus_set]; rewrite ?Hplus; reflexivity.
Qed.

(** ** The progress hook and the file extension it reports *)

Lemma split_on_nonempty sep s : split_on sep s <> [].
Proof.
  destruct s as [|c s]; simpl; [discriminate|].
  destruct (Ascii.eqb c sep); [discriminate|].
  destruct (split_on sep s); discriminate.
Qed.

Lemma has_char_app c (a b : string) :
  has_char c (a +:+ b) = has_char c a || has_char c b.
Proof.
  induction a as [|d a IH]; [reflexivity|].
  change (has_char c (String d (a +:+ b)) = has_char c (String d a) || has_char c b).
  simpl. rewrite IH. now rewrite orb_assoc.
Qed.

(** Splitting and joining again gives the string back, and no piece holds
    the separator. *)
Lemma join_split_on sep s :
  join_on sep (split_on sep s) = s /\
  Forall (fun piece => has_char sep piece = false) (split_on sep s).
Proof.
  induction s as [|c s IH]; simpl.
  - split; [reflexivity | repeat constructor].
  - destruct IH as [IHj IHf]. destruct (Ascii.eqb_spec c sep) as [->|Hne].
    + pose proof (split_on_nonempty sep s) as Hne.
      destruct (split_on sep s) as [|piece pieces]; [contradiction|].
      split; [|constructor; [reflexivity | assumption]].
      change (join_on sep ("" :: piece :: pieces))
        with (String sep (join_on sep (piece :: pieces))).
      now rewrite IHj.
    + pose proof (split_on_nonempty sep s) as Hs.
      destruct (split_on sep s) as [|piece pieces]; [contradiction|].
      apply Forall_cons in IHf as [Hp Hps]. split.
      * destruct pieces as [|q pieces].
        -- change (String c (join_on sep [piece]) = String c s). now rewrite IHj.
        -- change (String c (join_on sep (piece :: q :: pieces)) = String c s).
           now rewrite IHj.
      * constructor; [|assumption]. simpl.
        destruct (Ascii.eqb_spec c sep); [contradiction | assumption].
Qed.

Lemma join_on_last sep (pieces : list string) (p : string) :
  pieces <> [] ->
  exists stem, join_on sep (pieces ++ [p]) = stem +:+ String sep p.
Proof.
  induction pieces as [|q pieces IH]; [contradiction|]. intros _.
  destruct pieces as [|q' pieces].
  - exists q. reflexivity.
  - destruct IH as [stem Hstem]; [discriminate|].
    exists (q +:+ String sep stem).
    change (q +:+ String sep (join_on sep ((q' :: pieces) ++ [p])) =
            (q +:+ String sep stem) +:+ String sep p).
    rewrite Hstem, string_app_assoc. reflexivity.
Qed.

(** X19. The extension reported when a download finishes never holds a
    dot. It is [file] when the file name has no dot, and otherwise the part
    of the name after its last dot: the name is some stem, a dot and the
    extension. *)
Theorem file_ext_is_the_last_piece (filename : string) :
  has_char "." (file_ext filename) = false /\
  (has_char "." filename = false -> file_ext filename = "file") /\
  (has_char "." filename = true ->
     exists stem, filename = stem +:+ "." +:+ file_ext filename).
Proof.
  unfold file_ext.
  destruct (join_split_on "." filename) as [Hjoin Hall].
  destruct (has_char "." filename) eqn:Hdot.
  - destruct (exists_last (split_on_nonempty "." filename)) as (pieces & p & Hsplit).
    rewrite Hsplit in Hjoin, Hall |- *. rewrite last_snoc. simpl.
    apply Forall_app in Hall as [_ Hp]. rewrite Forall_singleton in Hp.
    split; [exact Hp|]. split; [discriminate|]. intros _.
    destruct pieces as [|q pieces].
    + simpl in Hjoin. rewrite <- Hjoin in Hdot. congruence.
    + destruct (join_on_last "." (q :: pieces) p) as [stem Hstem]; [discriminate|].
      exists stem. rewrite <- Hjoin. exact Hstem.
  - split; [reflexivity|]. split; [reflexivity | discriminate].
Qed.

Section HookFacts.
Variable strip : string -> string.

(** X20. When the hook writes nothing. A progress dictionary without
    [status] makes it raise [KeyError]; otherwise it stays silent exactly
    for a status other than [downloading], [finished] and [error], and for
    [downloading] with a blank percentage or a blank speed (a blank ETA
    alone does not silence it). *)
Theorem progress_hook_silence (d : gmap string string) (video_title : string) :
  (progress_hook strip d video_title = Raised "'status'" <-> d !! "status" = None) /\
  (progress_hook strip d video_title = Returned None <->
   exists status,
     d !! "status" = Some status /\
     (status ∉ ["downloading"; "finished"; "error"] \/
      status = "downloading" /\
      (strip (default "" (d !! "_percent_str")) = "" \/
       strip (default "" (d !! "_speed_str")) = ""))).
Proof.
  unfold progress_hook.
  destruct (d !! "status") as [status|]; [|split; split; auto; [discriminate | intros (? & [=] & _)]].
  split; [split; [|discriminate]|].
  { destruct (String.eqb status "downloading");
      [destruct (_ && _); discriminate|].
    destruct (String.eqb status "finished"); [discriminate|].
    destruct (String.eqb status "error"); discriminate. }
  destruct (String.eqb_spec status "downloading") as [->|Hdl].
  - destruct (String.eqb_spec (strip (default "" (d !! "_percent_str"))) "") as [Hp|Hp];
      [|destruct (String.eqb_spec (strip (default "" (d !! "_speed_str"))) "") as [Hsp|Hsp]];
      simpl.
    + split; [|reflexivity]. intros _. exists "downloading". auto.
    + split; [|reflexivity]. intros _. exists "downloading". auto.
    + split; [discriminate|].
      intros (status & [= <-] & [Hout | (_ & [? | ?])]); try contradiction.
      exfalso. apply Hout. apply list_elem_of_here.
  - destruct (String.eqb_spec status "finished") as [->|Hfin].
    + split; [discriminate|].
      intros (status & [= <-] & [Hout | (Heq & _)]); [|discriminate].
      exfalso. apply Hout. apply list_elem_of_further, list_elem_of_here.
    + destruct (String.eqb_spec status "error") as [->|Herr].
      * split; [discriminate|].
        intros (status & [= <-] & [Hout | (Heq & _)]); [|discriminate].
        exfalso. apply Hout. do 2 apply list_elem_of_further. apply list_elem_of_here.
      * split; [|reflexivity]. intros _. exists status. split; [reflexivity|]. left.
        intros Hin. repeat (apply elem_of_cons in Hin as [-> | Hin]);
          try contradiction. now apply elem_of_nil in Hin.
Qed.

End HookFacts.

(** ** Durations *)

Lemma pad2_two_digits (n : nat) : n < 100 -> String.length (pad2 n) = 2.
Proof.
  intros Hn. do 100 (destruct n as [|n]; [reflexivity|]). lia.
Qed.

Lemma string_length_app (a b : string) :
  String.length (a +:+ b) = String.length a + String.length b.
Proof.
  induction a as [|c a IH]; [reflexivity|].
  change (S (String.length (a +:+ b)) = S (String.length a) + String.length b).
  now rewrite IH.
Qed.

Lemma pretty_Z_of_nat (k : nat) : pretty (Z.of_nat k) = pretty k.
Proof. destruct k; reflexivity. Qed.

Lemma format_02d_of_nat (k : nat) : format_02d (Z.of_nat k) = pad2 k.
Proof.
  unfold format_02d, pad2. rewrite pretty_Z_of_nat.
  destruct (Z.ltb_spec (Z.of_nat k) 0) as [Hn|_]; [lia|].
  destruct (Z.ltb_spec (Z.of_nat k) 10) as [Hlt|Hge];
    destruct (Nat.ltb_spec k 10) as [Hlt'|Hge']; try lia; reflexivity.
Qed.

Lemma format_02d_two_digits (n : Z) :
  (0 <= n < 100)%Z -> String.length (format_02d n) = 2.
Proof.
  intros Hn. rewrite <- (Z2Nat.id n) by lia. rewrite format_02d_of_nat.
  apply pad2_two_digits. lia.
Qed.

(** On a natural number of seconds the two renderings agree. *)
Lemma duration_text_of_nat (duration : option nat) :
  duration_text (match duration with None => DNone | Some n => DInt (Z.of_nat n) end) =
    Returned (duration_str duration).
Proof.
  destruct duration as [[|d]|]; [reflexivity| |reflexivity].
  unfold duration_text, duration_str.
  destruct (Z.eqb_spec (Z.of_nat (S d)) 0) as [Hz|_]; [lia|]. cbv zeta.
  change 60%Z with (Z.of_nat 60).
  rewrite <- !Nat2Z.inj_div, <- !Nat2Z.inj_mod, !format_02d_of_nat.
  destruct (Nat.ltb_spec 0 (S d / 60 / 60)) as [Hh|Hh];
    destruct (Z.ltb_spec 0 (Z.of_nat (S d / 60 / 60))) as [Hh'|Hh']; try lia; reflexivity.
Qed.

(** What lines 458-463 give for an [int] that is not zero. *)
Lemma duration_text_int (d : Z) :
  d <> 0%Z ->
  duration_text (DInt d) =
    Returned ((if (0 <? d / 60 / 60)%Z then format_02d (d / 60 / 60) +:+ ":" else "") +:+
              format_02d ((d / 60) mod 60) +:+ ":" +:+ format_02d (d mod 60)).
Proof.
  intros Hd. unfold duration_text.
  destruct (Z.eqb_spec d 0) as [Hz|_]; [contradiction|]. cbv zeta.
  destruct (0 <? d / 60 / 60)%Z; [|reflexivity].
  now rewrite !string_app_assoc.
Qed.

(** X21. The text shown for a playlist entry's duration. A positive whole
    number of seconds is split into hours, minutes and seconds that add up
    to it, minutes and seconds below 60 and written with two digits; the
    hours are shown only when there are any, so a duration under an hour
    reads [MM:SS], in five characters. A negative whole number is split the
    same way by floor division, which makes its hours negative, so they are
    never shown and the text is [MM:SS] of the remainders: -5 reads
    [59:55]. A missing duration, zero (whole or float), the empty string
    and the string [Unknown] all read [Unknown]. A float that is not zero
    and any other string raise, the first in the format code [d], the
    second in [divmod]. *)
Theorem duration_text_cases :
  (forall d : Z, (0 < d)%Z ->
     exists h m s : Z,
       (d = 3600 * h + 60 * m + s)%Z /\ (0 <= h)%Z /\ (0 <= m < 60)%Z /\ (0 <= s < 60)%Z /\
       duration_text (DInt d) =
         Returned ((if (h =? 0)%Z then "" else format_02d h +:+ ":") +:+
                   format_02d m +:+ ":" +:+ format_02d s) /\
       ((d < 3600)%Z ->
        h = 0%Z /\ String.length (format_02d m +:+ ":" +:+ format_02d s) = 5)) /\
  (forall d : Z, (d < 0)%Z ->
     exists h m s : Z,
       (d = 3600 * h + 60 * m + s)%Z /\ (h < 0)%Z /\ (0 <= m < 60)%Z /\ (0 <= s < 60)%Z /\
       duration_text (DInt d) = Returned (format_02d m +:+ ":" +:+ format_02d s) /\
       String.length (format_02d m +:+ ":" +:+ format_02d s) = 5) /\
  duration_text (DInt (-5)) = Returned "59:55" /\
  duration_text DNone = Returned "Unknown" /\
  duration_text (DInt 0) = Returned "Unknown" /\
  duration_text (DFloat false) = Returned "Unknown" /\
  duration_text (DStr "") = Returned "Unknown" /\
  duration_text (DStr "Unknown") = Returned "Unknown" /\
  (exists msg, duration_text (DFloat true) = Raised msg) /\
  (forall text, text <> "" -> text <> "Unknown" ->
     exists msg, duration_text (DStr text) = Raised msg).
Proof.
  assert (Hlen : forall m s : Z, (0 <= m < 60)%Z -> (0 <= s < 60)%Z ->
            String.length (format_02d m +:+ ":" +:+ format_02d s) = 5).
  { intros m s Hm Hs.
    rewrite !string_length_app, !format_02d_two_digits by lia. reflexivity. }
  split; [|split].
  - intros d Hd. exists (d / 60 / 60)%Z, ((d / 60) mod 60)%Z, (d mod 60)%Z.
    pose proof (Z.div_mod d 60 ltac:(lia)) as H1.
    pose proof (Z.div_mod (d / 60) 60 ltac:(lia)) as H2.
    pose proof (Z.mod_pos_bound d 60 ltac:(lia)) as Hs.
    pose proof (Z.mod_pos_bound (d / 60) 60 ltac:(lia)) as Hm.
    assert (Hh : (0 <= d / 60 / 60)%Z) by (do 2 (apply Z.div_pos; [|lia]); lia).
    split; [lia|]. split; [exact Hh|]. split; [exact Hm|]. split; [exact Hs|].
    split.
    + rewrite duration_text_int by lia.
      destruct (Z.ltb_spec 0 (d / 60 / 60)) as [Hlt|Hge];
        destruct (Z.eqb_spec (d / 60 / 60) 0) as [Hz|Hnz]; try lia; reflexivity.
    + intros Hlt. split; [|apply Hlen; assumption].
      rewrite (Z.div_small (d / 60) 60); [reflexivity|].
      split; [apply Z.div_pos; lia|]. apply Z.div_lt_upper_bound; lia.
  - intros d Hd. exists (d / 60 / 60)%Z, ((d / 60) mod 60)%Z, (d mod 60)%Z.
    pose proof (Z.div_mod d 60 ltac:(lia)) as H1.
    pose proof (Z.div_mod (d / 60) 60 ltac:(lia)) as H2.
    pose proof (Z.mod_pos_bound d 60 ltac:(lia)) as Hs.
    pose proof (Z.mod_pos_bound (d / 60) 60 ltac:(lia)) as Hm.
    assert (Hh : (d / 60 / 60 < 0)%Z).
    { apply Z.div_lt_upper_bound; [lia|]. 
      assert (d / 60 < 0)%Z by (apply Z.div_lt_upper_bound; lia). lia. }
    split; [lia|]. split; [exact Hh|]. split; [exact Hm|]. split; [exact Hs|].
    split; [|apply Hlen; assumption].
    rewrite duration_text_int by lia.
    destruct (Z.ltb_spec 0 (d / 60 / 60)) as [Hlt|Hge]; [lia|reflexivity].
  - repeat (split; [reflexivity|]). split; [eexists; reflexivity|].
    intros text Hne Hnu. unfold duration_text.
    destruct (String.eqb_spec text "") as [->|_]; [contradiction|].
    destruct (String.eqb_spec text "Unknown") as [->|_]; [contradiction|].
    eexists; reflexivity.
Qed.

(** ** The playlist entries *)

Section EntryFacts.
Context `{Services}.

(** The loop on entries whose durations can all be formatted. *)
Lemma collect_videos_spec (n : nat) (videos : list (option Entry)) (w : World)
    (rows : list VideoRow) (urls : list string) :
  Forall (fun video => exists text, duration_text (en_duration video) = Returned text)
         (present_entries videos) ->
  exists w' rows' urls',
    collect_videos (enumerate_from n videos) w rows urls = (w', Returned (rows', urls')) /\
    urls' = urls ++ (entry_url <$> present_entries videos) /\
    (row_url <$> rows') = (row_url <$> rows) ++ (entry_url <$> present_entries videos) /\
    (row_id <$> rows') = (row_id <$> rows) ++ (en_id <$> present_entries videos) /\
    (row_title <$> rows') = (row_title <$> rows) ++ (stored_title <$> present_entries videos) /\
    ((fun row => Returned (row_duration row)) <$> rows') =
      ((fun row => Returned (row_duration row)) <$> rows) ++
      ((fun video => duration_text (en_duration video)) <$> present_entries videos) /\
    (row_index <$> rows') =
      (row_index <$> rows) ++
      (fst <$> filter (fun it => is_Some it.2) (enumerate_from n videos)).
Proof.
  revert n w rows urls.
  induction videos as [|[video|] videos IH]; intros n w rows urls Hfmt.
  - exists w, rows, urls. simpl. rewrite !app_nil_r. auto 10.
  - change (present_entries (Some video :: videos)) with (video :: present_entries videos)
      in Hfmt |- *.
    apply Forall_cons in Hfmt as [(text & Htext) Hfmt].
    cbn [enumerate_from collect_videos]. rewrite Htext.
    destruct (fetch_thumbnail (py_str (en_id video)) w) as [w1 thumbnail].
    destruct (IH (S n) w1
                (rows ++ [{| row_index := n; row_id := en_id video;
                             row_title := stored_title video;
                             row_duration := text;
                             row_url := "https://www.youtube.com/watch?v=" +:+
                                        py_str (en_id video);
                             row_thumbnail := thumbnail |}])
                (urls ++ ["https://www.youtube.com/watch?v=" +:+ py_str (en_id video)])
                Hfmt)
      as (w' & rows' & urls' & Hrun & Hu & Hd & Hi & Ht & Hdur & Hx).
    exists w', rows', urls'. split; [exact Hrun|].
    rewrite Hu, Hd, Hi, Ht, Hdur, Hx, !fmap_app, <- !app_assoc. simpl. rewrite Htext.
    repeat split; reflexivity.
  - destruct (IH (S n) w rows urls Hfmt)
      as (w' & rows' & urls' & Hrun & Hu & Hd & Hi & Ht & Hdur & Hx).
    exists w', rows', urls'. split; [exact Hrun|].
    rewrite Hu, Hd, Hi, Ht, Hdur, Hx. repeat split; reflexivity.
Qed.

(** The loop on entries one of whose durations cannot be formatted. *)
Lemma collect_videos_raises (n : nat) (videos : list (option Entry)) (w : World)
    (rows : list VideoRow) (urls : list string) :
  Exists (fun video => exists msg, duration_text (en_duration video) = Raised msg)
         (present_entries videos) ->
  exists w' msg, collect_videos (enumerate_from n videos) w rows urls = (w', Raised msg).
Proof.
  revert n w rows urls.
  induction videos as [|[video|] videos IH]; intros n w rows urls Hbad.
  - now apply Exists_nil in Hbad.
  - change (present_entries (Some video :: videos)) with (video :: present_entries videos)
      in Hbad.
    cbn [enumerate_from collect_videos].
    destruct (duration_text (en_duration video)) as [text|msg] eqn:Htext.
    + apply Exists_cons in Hbad as [(msg & Hmsg)|Hbad]; [congruence|].
      destruct (fetch_thumbnail (py_str (en_id video)) w) as [w1 thumbnail].
      apply IH. exact Hbad.
    + exists w, msg. reflexivity.
  - apply (IH (S n) w rows urls Hbad).
Qed.

(** On the entries [prepare_videos] is written for, the two loops build the
    same lists. *)
Lemma collect_videos_plain (videos : list (nat * option Video)) (w : World)
    (vdata : list VideoData) (vurls : list string) :
  collect_videos ((fun it : nat * option Video => (it.1, plain_entry <$> it.2)) <$> videos)
                 w (plain_row <$> vdata) vurls =
    (let res := prepare_videos videos w vdata vurls in
     (res.1.1, Returned (plain_row <$> res.1.2, res.2))).
Proof.
  revert w vdata vurls.
  induction videos as [|[i [video|]] videos IH]; intros w vdata vurls.
  - reflexivity.
  - cbn [fmap list_fmap collect_videos prepare_videos fst snd option_fmap option_map].
    change (en_duration (plain_entry video))
      with (match v_duration video with None => DNone | Some n => DInt (Z.of_nat n) end).
    rewrite duration_text_of_nat.
    change (py_str (en_id (plain_entry video))) with (v_id video).
    destruct (fetch_thumbnail (v_id video) w) as [w1 thumbnail].
    rewrite <- IH. f_equal. rewrite fmap_app. f_equal. simpl. unfold plain_row. simpl.
    f_equal. f_equal. unfold stored_title. simpl. now destruct (v_title video).
  - apply IH.
Qed.

(** X9. The pass over the playlist entries. It ends normally exactly when
    the duration of every entry it does not skip can be formatted, and then
    the two lists it has built are aligned: a skipped entry ([None] or
    empty) adds to neither, every other entry adds its watch URL to
    [video_urls] and, at the same position, an element with that URL, the
    entry's id, its formatted duration and its title to [video_data]. The
    title is [Unknown Title] only when the entry has no title key; a title
    that is present and [None] is stored as [None]. The watch URL of an
    entry without an id ends in [None]. The [index] field counts the
    skipped entries too, so it is the position among all entries, not the
    position in the stored lists. When some duration cannot be formatted
    (a float that is not zero, a string other than the empty one and
    [Unknown]), the pass raises instead and neither list is produced. *)
Theorem collect_videos_aligned (videos : list (option Entry)) (w : World) :
  (Forall (fun video => exists text, duration_text (en_duration video) = Returned text)
          (present_entries videos) ->
   exists w' rows urls,
     collect_videos (enumerate videos) w [] [] = (w', Returned (rows, urls)) /\
     urls = entry_url <$> present_entries videos /\
     (row_url <$> rows) = urls /\
     (row_id <$> rows) = en_id <$> present_entries videos /\
     (row_title <$> rows) = stored_title <$> present_entries videos /\
     ((fun row => Returned (row_duration row)) <$> rows) =
       (fun video => duration_text (en_duration video)) <$> present_entries videos /\
     (row_index <$> rows) = fst <$> filter (fun it => is_Some it.2) (enumerate videos) /\
     length rows = length urls) /\
  (Exists (fun video => exists msg, duration_text (en_duration video) = Raised msg)
          (present_entries videos) ->
   exists w' msg, collect_videos (enumerate videos) w [] [] = (w', Raised msg)).
Proof.
  split.
  - intros Hfmt.
    destruct (collect_videos_spec 0 videos w [] [] Hfmt)
      as (w' & rows & urls & Hrun & Hu & Hd & Hi & Ht & Hdur & Hx).
    simpl in Hu, Hd, Hi, Ht, Hdur, Hx.
    exists w', rows, urls. split; [exact Hrun|]. subst urls.
    repeat split; try assumption.
    apply (f_equal length) in Hd. rewrite (length_fmap row_url) in Hd. exact Hd.
  - apply collect_videos_raises.
Qed.

End EntryFacts.

(** ** Further runs in the concrete world *)

Lemma progress_in_range_witness :
  exists b r,
    Fixture.run (Fixture.session ["a"; "gone"] {[0; 1; 4]}) = Returned (b, r) /\
    Forall progress_in_range (ui r).
Proof.
  apply (@download_videos_progress_in_range Fixture.services Fixture.downloader
           (Fixture.session ["a"; "gone"] {[0; 1; 4]}) (Fixture.watch <$> ["a"; "gone"])
           {[0; 1; 4]} false "1080p" []).
  reflexivity.
Defined.

Lemma console_append_only_witness :
  exists b r,
    Fixture.run (Fixture.session ["a"; "gone"] {[0; 1; 4]}) = Returned (b, r) /\
    Forall (fun c => c `prefix_of` console_content r) (snapshots (ui r)) /\
    last (ui r) = Some (UiConsole (console_content r)).
Proof.
  apply (@download_videos_console_append_only Fixture.services Fixture.downloader
           (Fixture.session ["a"; "gone"] {[0; 1; 4]}) (Fixture.watch <$> ["a"; "gone"])
           {[0; 1; 4]} false "1080p" []).
  - discriminate.
  - vm_compute. discriminate.
  - reflexivity.
Defined.

Lemma sleeps_once_per_item_witness :
  exists b r,
    Fixture.run (Fixture.session ["a"; "gone"] {[0; 1; 4]}) = Returned (b, r) /\
    slept (ui r) = 2.
Proof.
  destruct (@download_videos_sleeps_once_per_item Fixture.services Fixture.downloader
              (Fixture.session ["a"; "gone"] {[0; 1; 4]}) (Fixture.watch <$> ["a"; "gone"])
              {[0; 1; 4]} false "1080p" [])
    as (b & r & Hrun & Hslept & _).
  - discriminate.
  - vm_compute. discriminate.
  - reflexivity.
  - exists b, r. split; [exact Hrun | exact Hslept].
Defined.

Lemma world_is_sequential_witness :
  exists b r,
    Fixture.run (Fixture.session ["a"; "gone"; "c"] {[0; 1; 2]}) = Returned (b, r) /\
    world r = [(Fixture.watch "c" +:+ ".mp4", 2048); (Fixture.watch "a" +:+ ".mp4", 2048)].
Proof.
  destruct (@download_videos_world_is_sequential Fixture.services Fixture.downloader
              (Fixture.session ["a"; "gone"; "c"] {[0; 1; 2]})
              (Fixture.watch <$> ["a"; "gone"; "c"]) {[0; 1; 2]} false "1080p" [])
    as (b & r & Hrun & Hworld).
  - discriminate.
  - vm_compute. discriminate.
  - reflexivity.
  - exists b, r. split; [exact Hrun|]. rewrite Hworld. vm_compute. reflexivity.
Defined.

Lemma fixture_resolves (url : string) (inp : Inputs) (videos : list (option Video)) :
  playlist_url inp = url ->
  @is_valid_playlist_url Fixture.downloader url = true ->
  url <> "" ->
  @ydl_playlist_info Fixture.services url [] = ([], Fixture.playlist videos) ->
  videos <> [] ->
  @resolves Fixture.services Fixture.downloader inp [] [] videos.
Proof.
  intros Hurl Hvalid Hne Hinfo Hvideos. unfold resolves. rewrite Hurl.
  split; [exact Hne|]. split; [exact Hvalid|].
  eexists. split; [exact Hinfo|]. split; [reflexivity | exact Hvideos].
Qed.

Lemma main_select_all_witness :
  let res :=
    @main Fixture.services Fixture.downloader
      {| playlist_url := "https://www.youtube.com/playlist?list=PL3";
         download_type := "Video"; quality_choice := "1080p";
         select_all := true; clear_all := false; submitted := false;
         start_download := false |}
      (Fixture.raw (Fixture.session ["z"] {[0; 7]})) [] in
  size (selected_videos (mr_session res)) = 3 /\
  (forall idx, idx ∈ selected_videos (mr_session res) <-> idx < 3).
Proof.
  destruct (@main_select_all Fixture.services Fixture.downloader
              {| playlist_url := "https://www.youtube.com/playlist?list=PL3";
                 download_type := "Video"; quality_choice := "1080p";
                 select_all := true; clear_all := false; submitted := false;
                 start_download := false |}
              (Fixture.raw (Fixture.session ["z"] {[0; 7]})) [] []
              [Fixture.entry "a"; Fixture.entry "b"; Fixture.entry "c"])
    as (Hmem & Hsize & _).
  - apply (fixture_resolves "https://www.youtube.com/playlist?list=PL3");
      [reflexivity | reflexivity | discriminate | reflexivity | discriminate].
  - reflexivity.
  - split; [exact Hsize | exact Hmem].
Defined.

Lemma main_clear_all_witness :
  selected_videos
    (mr_session
       (@main Fixture.services Fixture.downloader
          {| playlist_url := "https://www.youtube.com/playlist?list=PL3";
             download_type := "Video"; quality_choice := "1080p";
             select_all := false; clear_all := true; submitted := false;
             start_download := false |}
          (Fixture.raw (Fixture.session ["z"] {[0; 7]})) [])) = ∅.
Proof.
  destruct (@main_clear_all Fixture.services Fixture.downloader
              {| playlist_url := "https://www.youtube.com/playlist?list=PL3";
                 download_type := "Video"; quality_choice := "1080p";
                 select_all := false; clear_all := true; submitted := false;
                 start_download := false |}
              (Fixture.raw (Fixture.session ["z"] {[0; 7]})) [] []
              [Fixture.entry "a"; Fixture.entry "b"; Fixture.entry "c"])
    as (Hsel & _).
  - apply (fixture_resolves "https://www.youtube.com/playlist?list=PL3");
      [reflexivity | reflexivity | discriminate | reflexivity | discriminate].
  - reflexivity.
  - reflexivity.
  - exact Hsel.
Defined.

Lemma main_update_selections_witness :
  let raw :=
    @session_raw Fixture.services (Fixture.session ["z"] {[0; 1]})
      (<[0 := true]> (<[1 := false]> (<[2 := true]> (<[7 := true]> ∅)))) in
  let res :=
    @main Fixture.services Fixture.downloader
      {| playlist_url := "https://www.youtube.com/playlist?list=PL3";
         download_type := "Video"; quality_choice := "1080p";
         select_all := false; clear_all := false; submitted := true;
         start_download := false |} raw [] in
  (2 ∈ selected_videos (mr_session res)) /\
  (1 ∉ selected_videos (mr_session res)) /\
  (7 ∉ selected_videos (mr_session res)).
Proof.
  destruct (@main_update_selections Fixture.services Fixture.downloader
              {| playlist_url := "https://www.youtube.com/playlist?list=PL3";
                 download_type := "Video"; quality_choice := "1080p";
                 select_all := false; clear_all := false; submitted := true;
                 start_download := false |}
              (@session_raw Fixture.services (Fixture.session ["z"] {[0; 1]})
                 (<[0 := true]> (<[1 := false]> (<[2 := true]> (<[7 := true]> ∅)))))
              [] [] [Fixture.entry "a"; Fixture.entry "b"; Fixture.entry "c"])
    as (Hmem & _).
  - apply (fixture_resolves "https://www.youtube.com/playlist?list=PL3");
      [reflexivity | reflexivity | discriminate | reflexivity | discriminate].
  - reflexivity.
  - reflexivity.
  - reflexivity.
  - split; [apply Hmem; split; [simpl; lia | reflexivity]|].
    split; intros Hin; apply Hmem in Hin as [Hpos Hbox].
    + vm_compute in Hbox. discriminate Hbox.
    + simpl in Hpos. lia.
Defined.


Lemma reachable_lists_aligned_witness :
  let ss :=
    mr_session (@main Fixture.services Fixture.downloader
                  (Fixture.inputs "https://www.youtube.com/playlist?list=PL3")
                  (@fresh_session Fixture.services) []) in
  (vd_url <$> video_data ss) = video_urls ss /\
  length (video_data ss) = length (video_urls ss).
Proof.
  apply (@reachable_lists_aligned Fixture.services Fixture.downloader).
  apply (@reach_first Fixture.services Fixture.downloader).
Defined.

Lemma valid_url_suffix_witness :
  @is_valid_playlist_url Fixture.downloader
    ("https://www.youtube.com/playlist?list=PL123" +:+ "&index=2 and more") = true.
Proof.
  apply (valid_url_ignores_what_follows Fixture.downloader
           "https://www.youtube.com/playlist?list=PL123" "&index=2 and more").
  reflexivity.
Defined.

Lemma list_parameter_witness :
  @is_valid_playlist_url Fixture.downloader
    ("https://" +:+ "www." +:+ "youtube.com" +:+ "/playlist?list=" +:+ "") = false.
Proof.
  apply (list_parameter_needs_an_identifier Fixture.downloader
           "https://" "www." "youtube.com" "").
  - apply (bool_decide_unpack _). vm_compute. exact I.
  - apply (bool_decide_unpack _). vm_compute. exact I.
  - apply (bool_decide_unpack _). vm_compute. exact I.
  - intros c rest' Heq. discriminate Heq.
Defined.

Lemma duration_text_witness :
  (exists h m s : Z,
     (3725 = 3600 * h + 60 * m + s)%Z /\ (0 <= m < 60)%Z /\ (0 <= s < 60)%Z /\
     duration_text (DInt 3725) =
       Returned ((if (h =? 0)%Z then "" else format_02d h +:+ ":") +:+
                 format_02d m +:+ ":" +:+ format_02d s)) /\
  duration_text (DInt 3725) = Returned "01:02:05" /\
  (exists msg, duration_text (DStr "1:05") = Raised msg).
Proof.
  destruct duration_text_cases as (Hpos & _ & _ & _ & _ & _ & _ & _ & _ & Hstr).
  destruct (Hpos 3725%Z) as (h & m & s & Hsum & Hh & Hm & Hs & Htext & _); [lia|].
  split; [|split].
  - exists h, m, s. repeat split; try apply Hm; try apply Hs; assumption.
  - reflexivity.
  - apply Hstr; discriminate.
Defined.

Lemma collect_videos_witness :
  (exists w' rows urls,
     @collect_videos Fixture.services
       (enumerate [Some {| en_id := Some "a"; en_title := Some None; en_duration := DInt 125 |};
                   None;
                   Some {| en_id := None; en_title := None; en_duration := DNone |}])
       [] [] [] = (w', Returned (rows, urls)) /\
     urls = ["https://www.youtube.com/watch?v=a"; "https://www.youtube.com/watch?v=None"] /\
     (row_url <$> rows) = urls /\
     (row_title <$> rows) = [None; Some "Unknown Title"] /\
     (row_index <$> rows) = [0; 2]) /\
  (exists w' msg,
     @collect_videos Fixture.services
       (enumerate [Some {| en_id := Some "a"; en_title := None; en_duration := DInt 125 |};
                   Some {| en_id := Some "b"; en_title := None; en_duration := DFloat true |}])
       [] [] [] = (w', Raised msg)).
Proof.
  split.
  - destruct (@collect_videos_aligned Fixture.services
                [Some {| en_id := Some "a"; en_title := Some None; en_duration := DInt 125 |};
                 None;
                 Some {| en_id := None; en_title := None; en_duration := DNone |}] [])
      as [Hok _].
    destruct Hok as (w' & rows & urls & Hrun & Hu & Hd & _ & Ht & _ & Hx & _).
    { repeat constructor; eexists; reflexivity. }
    exists w', rows, urls. repeat split; assumption.
  - destruct (@collect_videos_aligned Fixture.services
                [Some {| en_id := Some "a"; en_title := None; en_duration := DInt 125 |};
                 Some {| en_id := Some "b"; en_title := None; en_duration := DFloat true |}] [])
      as [_ Hbad].
    apply Hbad. apply Exists_cons_tl, Exists_cons_hd. eexists; reflexivity.
Defined.
